(** * ParquetReader: a shallow embedding of Sources/SharedCore/cpp/ParquetReader.cpp

    The file follows the C++ source top-down: machine integers, the pieces of
    the C library and of Arrow that the reader calls, the reader cache, the
    two query functions, the release functions, and then the properties. *)

From Stdlib Require Import ZArith List Lia Bool Ascii Floats.
From stdpp Require Import gmap strings list pretty.

Local Open Scope Z_scope.

(* ===================================================================== *)
(** * Machine integers *)
(* ===================================================================== *)

(** A [w]-bit two's complement integer is a [Z] in [-2^(w-1), 2^(w-1));
    [wrap w] is the value such an integer takes after an operation whose
    mathematical result is [x].  The reader computes with [int] (32 bits:
    [start_row], [num_rows], [row_count], Date32 values) and with [int64_t]
    (row totals); a signed operation that leaves the range is taken to wrap
    around, as it does on the targets the reader is built for. *)
Definition wrap (w x : Z) : Z := (x + 2 ^ (w - 1)) mod 2 ^ w - 2 ^ (w - 1).

Definition int32 (x : Z) : Z := wrap 32 x.
Definition int64 (x : Z) : Z := wrap 64 x.

Definition in_int32 (x : Z) : Prop := - 2 ^ 31 <= x < 2 ^ 31.
Definition in_int64 (x : Z) : Prop := - 2 ^ 63 <= x < 2 ^ 63.

(* ===================================================================== *)
(** * The C library: [gmtime], [strftime], [std::to_string], [c_str] *)
(* ===================================================================== *)

Module Libc.

(** [struct tm], with the fields the two format strings read. *)
Record tm := mk_tm {
  tm_year : Z;   (* years since 1900 *)
  tm_mon  : Z;   (* 0..11 *)
  tm_mday : Z;   (* 1..31 *)
  tm_hour : Z;
  tm_min  : Z;
  tm_sec  : Z
}.

(** Day number (days since 1970-01-01, proleptic Gregorian calendar) to
    (year, month 1..12, day 1..31). *)
Definition civil_from_days (days : Z) : Z * Z * Z :=
  let z   := days + 719468 in
  let era := z / 146097 in
  let doe := z - era * 146097 in
  let yoe := (doe - doe / 1460 + doe / 36524 - doe / 146096) / 365 in
  let doy := doe - (365 * yoe + yoe / 4 - yoe / 100) in
  let mp  := (5 * doy + 2) / 153 in
  let d   := doy - (153 * mp + 2) / 5 + 1 in
  let m   := if mp <? 10 then mp + 3 else mp - 9 in
  let y   := yoe + era * 400 + (if m <=? 2 then 1 else 0) in
  (y, m, d).

(** [gmtime(&seconds)]: broken-down UTC time of a [time_t]. *)
Definition gmtime (seconds : Z) : tm :=
  let days := seconds / 86400 in
  let rem  := seconds mod 86400 in
  let '(y, m, d) := civil_from_days days in
  mk_tm (y - 1900) (m - 1) d (rem / 3600) (rem mod 3600 / 60) (rem mod 60).

(** Two-digit, zero-padded field ([%m], [%d], [%H], [%M], [%S]). *)
Definition pad2 (n : Z) : string :=
  if n <? 10 then "0" +:+ pretty n else pretty n.

(** [strftime(buffer, n, "%Y-%m-%d", &tm)]. *)
Definition strftime_Ymd (t : tm) : string :=
  pretty (tm_year t + 1900) +:+ "-" +:+ pad2 (tm_mon t + 1) +:+ "-" +:+ pad2 (tm_mday t).

(** [strftime(buffer, n, "%Y-%m-%d %H:%M:%S", &tm)]. *)
Definition strftime_Ymd_HMS (t : tm) : string :=
  strftime_Ymd t +:+ " " +:+ pad2 (tm_hour t) +:+ ":" +:+ pad2 (tm_min t)
                 +:+ ":" +:+ pad2 (tm_sec t).

(** [std::to_string] on a signed integer. *)
Definition to_string (v : Z) : string := pretty v.

(** [strdup(value.c_str())]: the copy ends at the first NUL byte. *)
Fixpoint strdup_c_str (s : string) : string :=
  match s with
  | EmptyString => EmptyString
  | String c rest =>
      if Ascii.eqb c Ascii.zero then EmptyString else String c (strdup_c_str rest)
  end.

End Libc.

(* ===================================================================== *)
(** * Arrow: typed arrays, chunked arrays, tables *)
(* ===================================================================== *)

Module Arrow.

(** [arrow::Type::type].  The nine members the reader dispatches on are
    spelled out; every other member of the enumeration is [OTHER id] with
    [id] its enumerator value. *)
Inductive type_id : Type :=
  | STRING | INT64 | INT32 | DOUBLE | FLOAT | BOOL
  | TIMESTAMP | DATE32 | DATE64
  | OTHER (id : N).

(** What [array->Value(i)] / [GetView(i)] returns in the array class of
    each type.  For a type the reader does not downcast to, only the
    validity bitmap is observed. *)
Definition value_of (t : type_id) : Type :=
  match t with
  | STRING => string
  | INT64 | INT32 | TIMESTAMP | DATE32 | DATE64 => Z
  | DOUBLE | FLOAT => PrimFloat.float
  | BOOL => bool
  | OTHER _ => unit
  end.

(** [arrow::Array]: a type and its slots; a [None] slot is a null. *)
Record Array := mk_Array {
  array_type : type_id;
  slots : list (option (value_of array_type))
}.

Definition array_length (a : Array) : Z := Z.of_nat (length (slots a)).

(** [Array::Slice(offset, length)]; the length is clamped to what is left. *)
Definition array_slice (offset len : Z) (a : Array) : Array :=
  mk_Array (array_type a) (take (Z.to_nat len) (drop (Z.to_nat offset) (slots a))).

(** [arrow::ChunkedArray]: the chunks of one column, in order. *)
Definition ChunkedArray := list Array.

Definition chunked_length (c : ChunkedArray) : Z :=
  foldr (fun a n => array_length a + n) 0 c.

(** [ChunkedArray::Slice(offset, length)] for [0 <= offset <= length of the
    column]: skip whole chunks while the offset covers them, then take slices
    of the following chunks until [length] rows are collected. *)
Fixpoint chunked_slice (offset len : Z) (c : ChunkedArray) : ChunkedArray :=
  match c with
  | [] => []
  | a :: rest =>
      if array_length a <=? offset then chunked_slice (offset - array_length a) len rest
      else if len <=? 0 then []
      else array_slice offset len a
             :: chunked_slice 0 (len - (array_length a - offset)) rest
  end.

(** [arrow::Field], as far as the schema query reads it. *)
Record Field := mk_Field {
  field_name : string;
  field_type_string : string   (* field->type()->ToString() *)
}.

(** [arrow::Table]. *)
Record Table := mk_Table {
  table_schema : list Field;
  table_columns : list ChunkedArray;
  table_num_rows : Z
}.

Definition table_num_columns (t : Table) : Z := Z.of_nat (length (table_columns t)).

(** [Table::Slice(offset, length)]: every column is sliced; the row count is
    that of the last sliced column, or [length] when there is no column. *)
Definition table_slice (offset len : Z) (t : Table) : Table :=
  let sliced := map (chunked_slice offset len) (table_columns t) in
  mk_Table (table_schema t) sliced
           (foldl (fun _ c => chunked_length c) len sliced).

End Arrow.

(* ===================================================================== *)
(** * Parquet: file metadata and the Arrow file reader *)
(* ===================================================================== *)

Module Parquet.

(** One row group: the row count its metadata declares, and the column
    chunks a physical read decodes ([None]: the read of this group fails). *)
Record RowGroup := mk_RowGroup {
  rg_num_rows : Z;
  rg_columns : option (list Arrow.Array)
}.

(** What an opened file exposes to the reader. *)
Record File := mk_File {
  arrow_schema : option (list Arrow.Field);  (* GetSchema; [None]: status not ok *)
  num_rows : Z;                              (* metadata()->num_rows() *)
  row_groups : list RowGroup
}.

Definition num_row_groups (f : File) : Z := Z.of_nat (length (row_groups f)).

(** [RowGroup(rg)->num_rows()]. *)
Definition RowGroup_num_rows (f : File) (rg : nat) : Z :=
  from_option rg_num_rows 0 (row_groups f !! rg).

(** [FileReader::ReadRowGroups(indices, &table)]: column [c] of the table
    has one chunk per requested group, in request order.  With no column
    the row count comes from the metadata, otherwise from the first
    column. *)
Definition ReadRowGroups (f : File) (indices : list nat) : option Arrow.Table :=
  fields ← arrow_schema f;
  groups ← mapM (fun rg => row_groups f !! rg ≫= rg_columns) indices;
  let columns :=
    imap (fun c _ => omap (fun cols : list Arrow.Array => cols !! c) groups) fields in
  let n :=
    match columns with
    | [] => foldr (fun rg acc => RowGroup_num_rows f rg + acc) 0 indices
    | first :: _ => Arrow.chunked_length first
    end in
  Some (Arrow.mk_Table fields columns n).

(** [FileReader::ReadTable(&table)]: every row group. *)
Definition ReadTable (f : File) : option Arrow.Table :=
  ReadRowGroups f (seq 0 (length (row_groups f))).

(** [parquet::arrow::FileReader], with the identity of the object. *)
Record FileReader := mk_FileReader {
  reader_id : nat;
  reader_file : File
}.

(** The outcome of the open sequence in [get_cached_reader]. *)
Inductive open_outcome : Type :=
  | MemoryMapFails            (* MemoryMappedFile::Open: status not ok *)
  | BuilderOpenFails          (* builder.Open: not a Parquet file, corrupt footer *)
  | BuildFails                (* builder.Build: status not ok *)
  | OpenThrows                (* an exception, caught by catch (...) *)
  | Opened (f : File).

End Parquet.

(* ===================================================================== *)
(** * The reader cache *)
(* ===================================================================== *)

Import Arrow Parquet.

(** The file system as the open sequence sees it. *)
Definition Disk := string -> open_outcome.

(** The global state of the translation unit: [reader_cache], plus two
    observations on it: every call of [MemoryMappedFile::Open], newest
    first, and the identity the next [FileReader] object gets.
    [cache_mutex] serialises the functions below; they are modelled as
    atomic steps on this state. *)
Record State := mk_State {
  reader_cache : gmap string FileReader;
  open_calls : list string;
  next_reader_id : nat
}.

Definition initial_state : State := mk_State ∅ [] 0.

(** [get_cached_reader(file_path)].  [None] is [nullptr]. *)
Definition get_cached_reader (disk : Disk) (file_path : string) (st : State)
  : option FileReader * State :=
  match reader_cache st !! file_path with
  | Some reader => (Some reader, st)
  | None =>
      let opens := file_path :: open_calls st in
      match disk file_path with
      | Opened f =>
          let reader := mk_FileReader (next_reader_id st) f in
          (Some reader,
           mk_State (<[file_path := reader]> (reader_cache st)) opens
                    (S (next_reader_id st)))
      | MemoryMapFails | BuilderOpenFails | BuildFails | OpenThrows =>
          (None, mk_State (reader_cache st) opens (next_reader_id st))
      end
  end.

(** [clear_parquet_cache(file_path)]. *)
Definition clear_parquet_cache (file_path : string) (st : State) : State :=
  mk_State (delete file_path (reader_cache st)) (open_calls st) (next_reader_id st).

(** [clear_all_parquet_cache()]. *)
Definition clear_all_parquet_cache (st : State) : State :=
  mk_State ∅ (open_calls st) (next_reader_id st).

(* ===================================================================== *)
(** * Results *)
(* ===================================================================== *)

(** [ColumnInfo]: two strings made by [strdup]. *)
Record ColumnInfo := mk_ColumnInfo {
  name : string;
  type : string
}.

(** [SchemaInfo]. *)
Record SchemaInfo := mk_SchemaInfo {
  columns : list ColumnInfo;
  info_column_count : Z;
  info_row_count : Z
}.

(** A [char*] slot of a row: [None] is a slot of [new char*[n]] that was
    never assigned (an indeterminate pointer), [Some s] a string made by
    [strdup]. *)
Definition Cell := option string.

(** [TableData].  [data = None] is the null [char***]; otherwise one row
    array per list element. *)
Record TableData := mk_TableData {
  data : option (list (list Cell));
  row_count : Z;
  column_count : Z
}.

(* ===================================================================== *)
(** * read_parquet_schema *)
(* ===================================================================== *)

Definition read_parquet_schema (disk : Disk) (file_path : string) (st : State)
  : option SchemaInfo * State :=
  match get_cached_reader disk file_path st with
  | (None, st') => (None, st')
  | (Some reader, st') =>
      match arrow_schema (reader_file reader) with
      | None => (None, st')
      | Some schema =>
          (Some (mk_SchemaInfo
                   (map (fun f => mk_ColumnInfo
                                    (Libc.strdup_c_str (field_name f))
                                    (Libc.strdup_c_str (field_type_string f)))
                        schema)
                   (Z.of_nat (length schema))
                   (num_rows (reader_file reader))),
           st')
      end
  end.

(* ===================================================================== *)
(** * read_parquet_data *)
(* ===================================================================== *)

Section ReadData.

(** [snprintf(buffer, 32, "%.6g", x)] on a double (a float argument is
    promoted to double by the call).  The formatting of floating-point
    numbers is left to the C library. *)
Variable snprintf_g6 : PrimFloat.float -> string.

(** The [switch (chunk->type_id())] of the cell loop, on a non-null slot. *)
Definition stringify_value (t : type_id) : value_of t -> string :=
  match t return value_of t -> string with
  | STRING => fun view => view
  | INT64 => fun v => Libc.to_string v
  | INT32 => fun v => Libc.to_string v
  | DOUBLE => fun x => snprintf_g6 x
  | FLOAT => fun x => snprintf_g6 x
  | BOOL => fun b => if b then "true" else "false"
  | TIMESTAMP => fun timestamp =>
      let seconds := timestamp `quot` 1000000 in
      Libc.strftime_Ymd_HMS (Libc.gmtime seconds)
  | DATE32 => fun days =>
      let seconds := int32 (days * 86400) in
      Libc.strftime_Ymd (Libc.gmtime seconds)
  | DATE64 => fun millis =>
      let seconds := millis `quot` 1000 in
      Libc.strftime_Ymd (Libc.gmtime seconds)
  | OTHER _ => fun _ => "UNSUPPORTED"
  end.

(** The [value] of one loop iteration: [chunk->IsNull(i)] first, then the
    switch. *)
Definition stringify (chunk : Array) (slot : option (value_of (array_type chunk)))
  : string :=
  match slot with
  | None => "NULL"
  | Some v => stringify_value (array_type chunk) v
  end.

(** [value] for [i = 0 .. chunk->length() - 1]. *)
Definition chunk_values (chunk : Array) : list string :=
  map (stringify chunk) (slots chunk).

(** Lines 124-142: the row groups to read.  [rg] is the loop index,
    [sizes] the row counts of the groups from [rg] on. *)
Fixpoint select_row_groups (sizes : list Z) (rg : nat) (current_row start_row end_row : Z)
  : list nat :=
  match sizes with
  | [] => []
  | rg_row_count :: rest =>
      let selected :=
        if (int64 (current_row + rg_row_count) >? start_row) && (current_row <? end_row)
        then [rg] else [] in
      let current_row := int64 (current_row + rg_row_count) in
      if current_row >=? end_row then selected
      else selected ++ select_row_groups rest (S rg) current_row start_row end_row
  end.

Definition row_groups_to_read (f : File) (start_row end_row : Z) : list nat :=
  select_row_groups (map rg_num_rows (row_groups f)) 0 0 start_row end_row.

(** Lines 165-175: the offset of the window in the table that was read. *)
Fixpoint offset_in_table (f : File) (to_read : list nat) (current_row start_row : Z) : Z :=
  match to_read with
  | [] => 0
  | rg :: rest =>
      let rg_row_count := RowGroup_num_rows f rg in
      if int64 (current_row + rg_row_count) >? start_row
      then int64 (start_row - current_row)
      else offset_in_table f rest (int64 (current_row + rg_row_count)) start_row
  end.

(** [data->data[row_idx][col] = strdup(value.c_str())]. *)
Definition set_cell (grid : list (list Cell)) (row_idx : Z) (col : nat) (value : string)
  : list (list Cell) :=
  alter (fun row => <[col := Some (Libc.strdup_c_str value)]> row) (Z.to_nat row_idx) grid.

(** The inner loop over one chunk: it runs while [row_idx < row_count]. *)
Fixpoint fill_chunk (row_count : Z) (col : nat) (values : list string)
    (row_idx : Z) (grid : list (list Cell)) : Z * list (list Cell) :=
  match values with
  | [] => (row_idx, grid)
  | value :: rest =>
      if row_idx <? row_count
      then fill_chunk row_count col rest (row_idx + 1) (set_cell grid row_idx col value)
      else (row_idx, grid)
  end.

(** The loop over the chunks of column [col], from [row_idx = 0]. *)
Definition fill_column (row_count : Z) (grid : list (list Cell)) (col : nat)
    (column : ChunkedArray) : list (list Cell) :=
  snd (foldl (fun '(row_idx, g) chunk => fill_chunk row_count col (chunk_values chunk) row_idx g)
             (0, grid) column).

(** Lines 180-283: allocation of the rows, then the loop over the columns. *)
Definition table_to_grid (row_count : Z) (table : Table) : list (list Cell) :=
  let column_count := Z.to_nat (table_num_columns table) in
  let fresh := replicate (Z.to_nat row_count) (replicate column_count (None : Cell)) in
  foldl (fun g '(col, column) => fill_column row_count g col column)
        fresh (imap (fun col column => (col, column)) (table_columns table)).

(** Lines 144-178: the physical read, then the slice to the window. *)
Definition read_window (f : File) (start_row end_row row_count : Z) : option Table :=
  let to_read := row_groups_to_read f start_row end_row in
  table ← (if Z.of_nat (length to_read) =? num_row_groups f
           then ReadTable f else ReadRowGroups f to_read);
  Some (if table_num_rows table >? row_count
        then table_slice (offset_in_table f to_read 0 start_row) row_count table
        else table).

(** The body of [read_parquet_data] once the reader is obtained.  [None]
    is [nullptr]. *)
Definition read_rows (f : File) (start_row num_rows : Z) : option TableData :=
  let total_rows := Parquet.num_rows f in
  let end_row := Z.min (int32 (start_row + num_rows)) total_rows in
  let row_count := int32 (int64 (end_row - start_row)) in
  if row_count <=? 0 then Some (mk_TableData None row_count 0)
  else
    table ← read_window f start_row end_row row_count;
    Some (mk_TableData (Some (table_to_grid row_count table))
                       row_count (table_num_columns table)).

Definition read_parquet_data (disk : Disk) (file_path : string)
    (start_row num_rows : Z) (st : State) : option TableData * State :=
  match get_cached_reader disk file_path st with
  | (None, st') => (None, st')
  | (Some reader, st') => (read_rows (reader_file reader) start_row num_rows, st')
  end.

End ReadData.

(* ===================================================================== *)
(** * free_schema_info and free_table_data *)
(* ===================================================================== *)

(** A heap block handed to [free], [delete[]] or [delete]. *)
Inductive Block : Type :=
  | CString (s : string)         (* free(char* ) *)
  | RowArray                     (* delete[] data->data[i] *)
  | GridArray                    (* delete[] data->data *)
  | ColumnInfoArray              (* delete[] info->columns *)
  | TableDataStruct              (* delete data *)
  | SchemaInfoStruct.            (* delete info *)

(** The release functions return the blocks they released, in order, or
    [None] when they read past the end of an array or pass [free] a pointer
    that was never assigned. *)
Definition free_schema_info (info : option SchemaInfo) : option (list Block) :=
  match info with
  | None => Some []
  | Some info =>
      strings ← mapM (fun i => c ← columns info !! i;
                               Some [CString (name c); CString (type c)])
                     (seq 0 (Z.to_nat (info_column_count info)));
      Some (concat strings ++ [ColumnInfoArray; SchemaInfoStruct])
  end.

Definition free_row (column_count : Z) (row : list Cell) : option (list Block) :=
  cells ← mapM (fun j => cell ← row !! j; s ← cell; Some (CString s))
               (seq 0 (Z.to_nat column_count));
  Some (cells ++ [RowArray]).

Definition free_table_data (d : option TableData) : option (list Block) :=
  match d with
  | None => Some []
  | Some d =>
      match data d with
      | None => Some [TableDataStruct]
      | Some rows =>
          freed ← mapM (fun i => row ← rows !! i; free_row (column_count d) row)
                       (seq 0 (Z.to_nat (row_count d)));
          Some (concat freed ++ [GridArray; TableDataStruct])
      end
  end.

(* ===================================================================== *)
(** * Sequences of calls on the interface *)
(* ===================================================================== *)

(** One call of a function of ParquetReader.h that touches the cache. *)
Inductive Call : Type :=
  | Call_read_parquet_schema (disk : Disk) (file_path : string)
  | Call_read_parquet_data (disk : Disk) (file_path : string) (start_row num_rows : Z)
  | Call_clear_parquet_cache (file_path : string)
  | Call_clear_all_parquet_cache.

Definition run_call (snprintf_g6 : PrimFloat.float -> string) (st : State) (c : Call)
  : State :=
  match c with
  | Call_read_parquet_schema disk p => snd (read_parquet_schema disk p st)
  | Call_read_parquet_data disk p s n => snd (read_parquet_data snprintf_g6 disk p s n st)
  | Call_clear_parquet_cache p => clear_parquet_cache p st
  | Call_clear_all_parquet_cache => clear_all_parquet_cache st
  end.

Definition run_calls (snprintf_g6 : PrimFloat.float -> string) (st : State)
    (cs : list Call) : State :=
  foldl (run_call snprintf_g6) st cs.

(** The states the process can be in. *)
Definition reachable (st : State) : Prop :=
  exists snprintf_g6 cs, st = run_calls snprintf_g6 initial_state cs.

(** Whether a call invalidates the cached reader of [file_path]. *)
Definition invalidates (file_path : string) (c : Call) : Prop :=
  match c with
  | Call_clear_parquet_cache p => p = file_path
  | Call_clear_all_parquet_cache => True
  | Call_read_parquet_schema _ _ | Call_read_parquet_data _ _ _ _ => False
  end.

(** The open sequence of [get_cached_reader] does not produce a reader. *)
Definition open_fails (o : open_outcome) : Prop :=
  match o with
  | Opened _ => False
  | MemoryMapFails | BuilderOpenFails | BuildFails | OpenThrows => True
  end.

(** How often [MemoryMappedFile::Open] was called on [file_path]. *)
Definition open_count (file_path : string) (st : State) : nat :=
  length (filter (fun p => p = file_path) (open_calls st)).

(* ===================================================================== *)
(** * Reference notions the properties are stated against *)
(* ===================================================================== *)

(** The sum of a sequence of row counts. *)
Definition sum_rows (sizes : list Z) : Z := foldr Z.add 0 sizes.

(** The running total of rows in the row groups before group [rg]. *)
Definition rows_before (f : File) (rg : nat) : Z :=
  sum_rows (take rg (map rg_num_rows (row_groups f))).

(** The metadata of a well-formed file: no row group has a negative row
    count, and the row count of the file is their sum, an int64. *)
Definition metadata_ok (f : File) : Prop :=
  Forall (fun size => 0 <= size) (map rg_num_rows (row_groups f)) /\
  Parquet.num_rows f = sum_rows (map rg_num_rows (row_groups f)) /\
  Parquet.num_rows f < 2 ^ 63.

(** The least a path normalisation does: it drops leading "./" segments.
    The source has none; the cache key is the string it is passed. *)
Fixpoint normalize_path (p : string) : string :=
  match p with
  | String c1 (String c2 rest) =>
      if Ascii.eqb c1 "."%char && Ascii.eqb c2 "/"%char then normalize_path rest else p
  | _ => p
  end.

(** The half-open intervals [lo, lo + size) and [start_row, end_row) have
    a row in common. *)
Definition intersects (lo size start_row end_row : Z) : Prop :=
  exists r, lo <= r < lo + size /\ start_row <= r < end_row.

(** The window read the long way: the whole file is read, the table is
    sliced at [start_row], and every cell is converted. *)
Definition whole_file_window (snprintf_g6 : PrimFloat.float -> string) (f : File)
    (start_row row_count : Z) : option (list (list Cell)) :=
  table ← ReadTable f;
  Some (table_to_grid snprintf_g6 row_count (table_slice start_row row_count table)).

(** A file is readable when its schema converts and every row group decodes. *)
Definition readable (f : File) : Prop :=
  is_Some (arrow_schema f) /\ Forall (fun rg => is_Some (rg_columns rg)) (row_groups f).

(** The values of a column in row order: those of its chunks, one chunk
    after the other. *)
Definition column_values (snprintf_g6 : PrimFloat.float -> string)
    (column : ChunkedArray) : list string :=
  concat (map (chunk_values snprintf_g6) column).

(** The number of rows of a column, and the row of a table that holds
    slot [i] of chunk [k] of a column. *)
Definition rows_in (column : ChunkedArray) : nat :=
  foldr (fun chunk n => (length (slots chunk) + n)%nat) 0%nat column.

Definition row_of_slot (column : ChunkedArray) (k i : nat) : nat :=
  (rows_in (take k column) + i)%nat.

(** [data->data[r][c]], when row [r] and column [c] exist. *)
Definition grid_cell (grid : list (list Cell)) (r c : nat) : option Cell :=
  grid !! r ≫= fun row => row !! c.

(** A string the cell loop can store: the copy of a [value] it computed. *)
Definition stringified (snprintf_g6 : PrimFloat.float -> string) (s : string) : Prop :=
  exists chunk slot, s = Libc.strdup_c_str (stringify snprintf_g6 chunk slot).

(** Every cell of a grid that was assigned holds a stringified value. *)
Definition cells_stringified (snprintf_g6 : PrimFloat.float -> string)
    (grid : list (list Cell)) : Prop :=
  Forall (Forall (fun c : Cell => forall s, c = Some s -> stringified snprintf_g6 s)) grid.

(** The invariant of the cache: every cached reader was built before the
    next one to be built, and no reader object is held under two paths. *)
Definition cache_wf (st : State) : Prop :=
  (forall p r, reader_cache st !! p = Some r -> (reader_id r < next_reader_id st)%nat) /\
  (forall p q r1 r2,
     reader_cache st !! p = Some r1 -> reader_cache st !! q = Some r2 ->
     reader_id r1 = reader_id r2 -> p = q).

(** The strings of a row whose cells are all assigned. *)
Definition row_strings (row : list Cell) : list string := omap id row.

(** A grid of [n] row arrays of [m] cells each. *)
Definition grid_shape (n m : nat) (grid : list (list Cell)) : Prop :=
  length grid = n /\ Forall (fun row => length row = m) grid.

(** What the open log says about the cache: every cached path was opened,
    and no more readers were built than opens were called. *)
Definition cache_opened (st : State) : Prop :=
  (forall p, is_Some (reader_cache st !! p) -> (0 < open_count p st)%nat) /\
  (size (reader_cache st) <= next_reader_id st)%nat /\
  (next_reader_id st <= length (open_calls st))%nat.

(** Whether a string has no NUL byte. *)
Fixpoint nul_free (s : string) : bool :=
  match s with
  | EmptyString => true
  | String c rest => negb (Ascii.eqb c Ascii.zero) && nul_free rest
  end.

(** One decoded row group agrees with its metadata and with the schema: it
    has one array per field, each with as many slots as the group has
    rows. *)
Definition group_ok (fields : list Field) (g : RowGroup) (cols : list Array) : Prop :=
  rg_columns g = Some cols /\
  length cols = length fields /\
  Forall (fun a => array_length a = rg_num_rows g) cols.

(** The data of a well-formed file: the schema converts and every row
    group decodes to arrays that agree with it. *)
Definition data_ok (f : File) (fields : list Field) : Prop :=
  arrow_schema f = Some fields /\
  Forall (fun g => exists cols, group_ok fields g cols) (row_groups f).

(** The values of column [c] in a sequence of decoded row groups. *)
Definition group_values (snprintf_g6 : PrimFloat.float -> string) (c : nat)
    (groups : list (list Array)) : list string :=
  concat (map (fun cols => from_option (chunk_values snprintf_g6) [] (cols !! c)) groups).

(* ===================================================================== *)
(** * Example files *)
(* ===================================================================== *)

(** Row groups of the given sizes with one INT64 column whose value in
    each row is the index of that row in the file. *)
Fixpoint id_groups (sizes : list nat) (first : Z) : list RowGroup :=
  match sizes with
  | [] => []
  | n :: rest =>
      mk_RowGroup (Z.of_nat n)
        (Some [mk_Array INT64 (map (fun k => Some (first + Z.of_nat k)) (seq 0 n))])
        :: id_groups rest (first + Z.of_nat n)
  end.

Definition id_file (sizes : list nat) : File :=
  mk_File (Some [mk_Field "id" "int64"])
          (Z.of_nat (foldr Nat.add 0%nat sizes))
          (id_groups sizes 0).

(** A file of one row group with a BOOL column and a column of a type the
    reader has no case for. *)
Definition mixed_file : File :=
  mk_File (Some [mk_Field "flag" "bool"; mk_Field "amount" "decimal128(10, 2)"])
          2
          [mk_RowGroup 2
             (Some [mk_Array BOOL [Some true; None];
                    mk_Array (OTHER 23) [Some (); None]])].

(** A formatter for the examples, none of which has a floating-point column. *)
Definition no_floats (x : PrimFloat.float) : string := EmptyString.

(** A disk on which no path can be opened. *)
Definition empty_disk : Disk := fun _ => MemoryMapFails.

(** A disk that holds one file, which two spellings of its path open. *)
Definition two_spellings_disk (f : File) : Disk :=
  fun p => if String.eqb (normalize_path p) "a.parquet" then Opened f else MemoryMapFails.

(** A disk with one file. *)
Definition one_file_disk (file_path : string) (f : File) : Disk :=
  fun p => if String.eqb p file_path then Opened f else MemoryMapFails.

(** A file of 5 rows in two row groups, and the disk that holds it as
    a.parquet. *)
Definition five_rows : File := id_file [2; 3]%nat.
Definition a_disk : Disk := one_file_disk "a.parquet" five_rows.

(** Calls that leave the reader of a.parquet alone. *)
Definition other_calls : list Call :=
  [Call_read_parquet_data a_disk "a.parquet" 0 2;
   Call_clear_parquet_cache "b.parquet";
   Call_read_parquet_schema empty_disk "c.parquet"].

(** The state after the schema of a.parquet was read once. *)
Definition a_cached : State :=
  snd (read_parquet_schema a_disk "a.parquet" initial_state).

(** A file with row groups of 3, 2 and 2 rows, and its second group. *)
Definition three_groups : File := id_file [3; 2; 2]%nat.
Definition second_group : RowGroup :=
  mk_RowGroup 2 (Some [mk_Array INT64 [Some 3; Some 4]]).

(** A file of 5 rows whose second row group cannot be decoded. *)
Definition corrupt_tail_file : File :=
  mk_File (Some [mk_Field "id" "int64"]) 5
          [mk_RowGroup 2 (Some [mk_Array INT64 [Some 0; Some 1]]);
           mk_RowGroup 3 None].

(** A file that opens but whose schema does not convert. *)
Definition no_schema_file : File := mk_File None 0 [].

(* ===================================================================== *)
(** * Properties: machine integers *)
(* ===================================================================== *)

Lemma int32_unfold x :
  int32 x = x - 4294967296 * ((x + 2147483648) / 4294967296).
Proof.
  unfold int32, wrap.
  change (2 ^ (32 - 1)) with 2147483648. change (2 ^ 32) with 4294967296.
  rewrite Z.mod_eq by lia. lia.
Qed.

Lemma int64_unfold x :
  int64 x = x - 18446744073709551616 * ((x + 9223372036854775808) / 18446744073709551616).
Proof.
  unfold int64, wrap.
  change (2 ^ (64 - 1)) with 9223372036854775808.
  change (2 ^ 64) with 18446744073709551616.
  rewrite Z.mod_eq by lia. lia.
Qed.

Lemma int32_in_range x : in_int32 (int32 x).
Proof.
  unfold in_int32, int32, wrap.
  change (2 ^ (32 - 1)) with 2147483648. change (2 ^ 32) with 4294967296.
  change (2 ^ 31) with 2147483648.
  pose proof (Z.mod_pos_bound (x + 2147483648) 4294967296). lia.
Qed.

Lemma int32_small x : in_int32 x -> int32 x = x.
Proof.
  unfold in_int32. change (2 ^ 31) with 2147483648. intros Hx.
  rewrite int32_unfold.
  assert ((x + 2147483648) / 4294967296 = 0) as -> by (apply Z.div_small; lia).
  lia.
Qed.

Lemma int64_small x : in_int64 x -> int64 x = x.
Proof.
  unfold in_int64. change (2 ^ 63) with 9223372036854775808. intros Hx.
  rewrite int64_unfold.
  assert ((x + 9223372036854775808) / 18446744073709551616 = 0) as ->
    by (apply Z.div_small; lia).
  lia.
Qed.

(* ===================================================================== *)
(** * Properties: the DATE32 case *)
(* ===================================================================== *)

(** Day 24855 is the last day whose second count fits an int. *)
Lemma date32_product_fits days :
  -24855 <= days <= 24855 -> int32 (days * 86400) = days * 86400.
Proof.
  intros Hd. apply int32_small. unfold in_int32. change (2 ^ 31) with 2147483648. lia.
Qed.

(** C10, as amended: in the DATE32 case the second count is the product
    [days * 86400] taken as a 32-bit signed integer.  For every day count
    of at least 24856 (2038-01-20 and later) or at most -24857 the product
    leaves the int range, the value passed to gmtime differs from the true
    second count by a non-zero multiple of 2^32, the string is the date of
    that wrapped value, and the day it falls on is not the day of the
    cell. *)
Theorem date32_seconds_wrap (snprintf_g6 : PrimFloat.float -> string) (days : Z) :
  in_int32 days ->
  24856 <= days \/ days <= -24857 ->
  let seconds := int32 (days * 86400) in
  Libc.civil_from_days 24856 = (2038, 1, 20) /\
  ~ in_int32 (days * 86400) /\
  (exists k, k <> 0 /\ seconds = days * 86400 + k * 2 ^ 32) /\
  stringify_value snprintf_g6 DATE32 days = Libc.strftime_Ymd (Libc.gmtime seconds) /\
  seconds / 86400 <> days.
Proof.
  intros Hin Hd seconds.
  pose proof (int32_in_range (days * 86400)) as Hr. fold seconds in Hr.
  pose proof (int32_unfold (days * 86400)) as Hu. fold seconds in Hu.
  unfold in_int32 in *. change (2 ^ 31) with 2147483648 in *.
  change (2 ^ 32) with 4294967296.
  set (q := (days * 86400 + 2147483648) / 4294967296) in Hu.
  assert (q <> 0) as Hq.
  { intros H0. rewrite H0 in Hu. lia. }
  split; [reflexivity|]. split; [lia|]. split.
  - exists (- q). split; lia.
  - split; [reflexivity|].
    intros Hday.
    pose proof (Z.mul_div_le seconds 86400 ltac:(lia)) as Hlo.
    pose proof (Z.mul_succ_div_gt seconds 86400 ltac:(lia)) as Hhi.
    rewrite Hday in Hlo, Hhi. lia.
Qed.

Lemma date32_seconds_wrap_witness :
  in_int32 24856 /\ (24856 <= 24856 \/ 24856 <= -24857) /\
  (let seconds := int32 (24856 * 86400) in
   Libc.civil_from_days 24856 = (2038, 1, 20) /\
   ~ in_int32 (24856 * 86400) /\
   (exists k, k <> 0 /\ seconds = 24856 * 86400 + k * 2 ^ 32) /\
   stringify_value no_floats DATE32 24856 = Libc.strftime_Ymd (Libc.gmtime seconds) /\
   seconds / 86400 <> 24856).
Proof.
  assert (in_int32 24856) as Hin by (unfold in_int32; lia).
  split; [exact Hin|]. split; [left; lia|].
  exact (date32_seconds_wrap no_floats 24856 Hin (or_introl (Z.le_refl 24856))).
Defined.

(** On 2038-01-19 (day 24855) the product still fits: nothing wraps and
    the string is the true date. *)
Lemma date32_2038_01_19_is_exact :
  Libc.civil_from_days 24855 = (2038, 1, 19) /\
  in_int32 (24855 * 86400) /\
  int32 (24855 * 86400) = 24855 * 86400 /\
  stringify_value no_floats DATE32 24855 = "2038-01-19".
Proof.
  split; [reflexivity|]. split; [unfold in_int32; lia|].
  split; [reflexivity|]. vm_compute. reflexivity.
Qed.

(** The first day past the range is rendered as a day of 1901. *)
Example date32_2038_01_20_rendered :
  stringify_value no_floats DATE32 24856 = "1901-12-14".
Proof. vm_compute. reflexivity. Qed.

(* ===================================================================== *)
(** * Properties: the cell loop *)
(* ===================================================================== *)

Section CellLoop.

Variable snprintf_g6 : PrimFloat.float -> string.

Lemma set_cell_stringified grid row_idx col chunk slot :
  cells_stringified snprintf_g6 grid ->
  cells_stringified snprintf_g6
    (set_cell grid row_idx col (stringify snprintf_g6 chunk slot)).
Proof.
  intros Hg. unfold set_cell, cells_stringified.
  apply Forall_alter; [exact Hg|].
  intros row _ Hrow. apply Forall_insert; [exact Hrow|].
  intros s [= <-]. exists chunk, slot. reflexivity.
Qed.

Lemma fill_chunk_stringified row_count col chunk (slots : list _) row_idx grid :
  cells_stringified snprintf_g6 grid ->
  cells_stringified snprintf_g6
    (snd (fill_chunk row_count col (map (stringify snprintf_g6 chunk) slots) row_idx grid)).
Proof.
  revert row_idx grid.
  induction slots as [|slot rest IH]; intros row_idx grid Hg; simpl; [exact Hg|].
  destruct (row_idx <? row_count); [|exact Hg].
  apply IH, set_cell_stringified, Hg.
Qed.

Lemma fill_column_stringified row_count grid col column :
  cells_stringified snprintf_g6 grid ->
  cells_stringified snprintf_g6 (fill_column snprintf_g6 row_count grid col column).
Proof.
  unfold fill_column. generalize 0 as row_idx. revert grid.
  induction column as [|chunk rest IH]; intros grid row_idx Hg; simpl; [exact Hg|].
  pose proof (fill_chunk_stringified row_count col chunk (slots chunk) row_idx grid Hg) as H.
  unfold chunk_values.
  destruct (fill_chunk row_count col (map (stringify snprintf_g6 chunk) (slots chunk))
              row_idx grid) as [row_idx' grid'].
  apply IH, H.
Qed.

Lemma table_to_grid_stringified row_count table :
  cells_stringified snprintf_g6 (table_to_grid snprintf_g6 row_count table).
Proof.
  unfold table_to_grid.
  generalize (imap (fun (col : nat) (column : ChunkedArray) => (col, column))
                (table_columns table)) as cols.
  assert (cells_stringified snprintf_g6
            (replicate (Z.to_nat row_count)
               (replicate (Z.to_nat (table_num_columns table)) (None : Cell)))) as Hfresh.
  { apply Forall_replicate, Forall_replicate. intros s [=]. }
  revert Hfresh.
  generalize (replicate (Z.to_nat row_count)
                (replicate (Z.to_nat (table_num_columns table)) (None : Cell))) as grid.
  intros grid Hg cols. revert grid Hg.
  induction cols as [|[col column] rest IH]; intros grid Hg; simpl; [exact Hg|].
  apply IH, fill_column_stringified, Hg.
Qed.

End CellLoop.

(** ** Which cell holds which value

    [set_cell] writes one cell and leaves the others; the loop over a
    chunk writes the rows from [row_idx] on, in column [col]; the loop over
    the columns writes each column once. *)

Lemma grid_cell_set_cell_eq grid i col value :
  is_Some (grid_cell grid (Z.to_nat i) col) ->
  grid_cell (set_cell grid i col value) (Z.to_nat i) col
  = Some (Some (Libc.strdup_c_str value)).
Proof.
  unfold grid_cell, set_cell. rewrite list_lookup_alter_eq.
  destruct (grid !! Z.to_nat i) as [row|]; cbn [fmap option_fmap option_map mbind option_bind];
    intros [cell Hcell]; [|discriminate Hcell].
  apply list_lookup_insert_eq. eapply lookup_lt_Some, Hcell.
Qed.

Lemma grid_cell_set_cell_ne grid i col value r c :
  r <> Z.to_nat i \/ c <> col ->
  grid_cell (set_cell grid i col value) r c = grid_cell grid r c.
Proof.
  intros Hne. unfold grid_cell, set_cell.
  destruct (decide (r = Z.to_nat i)) as [->|Hr].
  - rewrite list_lookup_alter_eq.
    destruct (grid !! Z.to_nat i) as [row|]; cbn [fmap option_fmap option_map mbind option_bind];
      [|reflexivity].
    apply list_lookup_insert_ne. intros ->. destruct Hne; congruence.
  - rewrite list_lookup_alter_ne by congruence. reflexivity.
Qed.

Lemma grid_cell_set_cell_is_Some grid i col value r c :
  is_Some (grid_cell grid r c) -> is_Some (grid_cell (set_cell grid i col value) r c).
Proof.
  intros H. destruct (decide (r = Z.to_nat i /\ c = col)) as [[-> ->]|Hne].
  - rewrite grid_cell_set_cell_eq by exact H. eauto.
  - rewrite grid_cell_set_cell_ne by (apply not_and_l in Hne; exact Hne). exact H.
Qed.

Section FillChunk.
Variables (row_count : Z) (col : nat).

Lemma fill_chunk_stop values row_idx grid :
  row_count <= row_idx -> fill_chunk row_count col values row_idx grid = (row_idx, grid).
Proof.
  intros H. destruct values; [reflexivity|]. cbn [fill_chunk].
  destruct (Z.ltb_spec row_idx row_count); [lia|reflexivity].
Qed.

Lemma fill_chunk_app values1 values2 row_idx grid :
  fill_chunk row_count col (values1 ++ values2) row_idx grid
  = fill_chunk row_count col values2
      (fst (fill_chunk row_count col values1 row_idx grid))
      (snd (fill_chunk row_count col values1 row_idx grid)).
Proof.
  revert row_idx grid.
  induction values1 as [|value rest IH]; intros row_idx grid; [reflexivity|].
  cbn [app fill_chunk].
  destruct (Z.ltb_spec row_idx row_count) as [Hlt|Hge]; [apply IH|].
  cbn [fst snd]. rewrite fill_chunk_stop by exact Hge. reflexivity.
Qed.

Lemma fill_chunk_other_column values row_idx grid r c :
  c <> col ->
  grid_cell (snd (fill_chunk row_count col values row_idx grid)) r c = grid_cell grid r c.
Proof.
  intros Hc. revert row_idx grid.
  induction values as [|value rest IH]; intros row_idx grid; [reflexivity|].
  cbn [fill_chunk]. destruct (row_idx <? row_count); [|reflexivity].
  rewrite IH. apply grid_cell_set_cell_ne. right. exact Hc.
Qed.

Lemma fill_chunk_earlier_row values row_idx grid r c :
  0 <= row_idx -> (r < Z.to_nat row_idx)%nat ->
  grid_cell (snd (fill_chunk row_count col values row_idx grid)) r c = grid_cell grid r c.
Proof.
  revert row_idx grid.
  induction values as [|value rest IH]; intros row_idx grid H0 Hr; [reflexivity|].
  cbn [fill_chunk]. destruct (row_idx <? row_count); [|reflexivity].
  rewrite IH by lia. apply grid_cell_set_cell_ne. left. lia.
Qed.

Lemma fill_chunk_write values : forall row_idx grid j value,
  0 <= row_idx ->
  values !! j = Some value ->
  row_idx + Z.of_nat j < row_count ->
  is_Some (grid_cell grid (Z.to_nat row_idx + j) col) ->
  grid_cell (snd (fill_chunk row_count col values row_idx grid)) (Z.to_nat row_idx + j) col
  = Some (Some (Libc.strdup_c_str value)).
Proof.
  induction values as [|value0 rest IH]; intros row_idx grid j value H0 Hj Hlt Hcell;
    [discriminate Hj|].
  cbn [fill_chunk]. destruct (Z.ltb_spec row_idx row_count); [|lia].
  destruct j as [|j].
  - injection Hj as ->. rewrite Nat.add_0_r in *.
    rewrite fill_chunk_earlier_row by lia.
    apply grid_cell_set_cell_eq, Hcell.
  - cbn [lookup list_lookup] in Hj.
    replace (Z.to_nat row_idx + S j)%nat with (Z.to_nat (row_idx + 1) + j)%nat in * by lia.
    apply IH; [lia|exact Hj|lia|].
    apply grid_cell_set_cell_is_Some, Hcell.
Qed.

End FillChunk.

Section FillGrid.
Variable snprintf_g6 : PrimFloat.float -> string.
Variable row_count : Z.

Lemma fill_column_values grid col column :
  fill_column snprintf_g6 row_count grid col column
  = snd (fill_chunk row_count col (column_values snprintf_g6 column) 0 grid).
Proof.
  unfold fill_column, column_values. generalize 0 as row_idx. revert grid.
  induction column as [|chunk rest IH]; intros grid row_idx; [reflexivity|].
  cbn [foldl map concat]. rewrite fill_chunk_app.
  destruct (fill_chunk row_count col (chunk_values snprintf_g6 chunk) row_idx grid)
    as [row_idx' grid'].
  apply IH.
Qed.

Lemma fill_column_other_column grid col column r c :
  c <> col ->
  grid_cell (fill_column snprintf_g6 row_count grid col column) r c = grid_cell grid r c.
Proof. intros Hc. rewrite fill_column_values. apply fill_chunk_other_column, Hc. Qed.

Lemma fill_column_write grid col column r value :
  column_values snprintf_g6 column !! r = Some value ->
  Z.of_nat r < row_count ->
  is_Some (grid_cell grid r col) ->
  grid_cell (fill_column snprintf_g6 row_count grid col column) r col
  = Some (Some (Libc.strdup_c_str value)).
Proof.
  intros Hv Hr Hcell. rewrite fill_column_values.
  apply (fill_chunk_write row_count col _ 0 grid r value); [lia|exact Hv|lia|exact Hcell].
Qed.

Lemma fill_columns_other_column (l : list (nat * ChunkedArray)) : forall grid r c,
  c ∉ l.*1 ->
  grid_cell (foldl (fun g '(col, column) => fill_column snprintf_g6 row_count g col column)
               grid l) r c
  = grid_cell grid r c.
Proof.
  induction l as [|[col column] rest IH]; intros grid r c Hc; [reflexivity|].
  cbn [foldl]. rewrite fmap_cons, not_elem_of_cons in Hc. destruct Hc as [Hne Hc].
  rewrite IH by exact Hc. apply fill_column_other_column, Hne.
Qed.

Lemma fill_columns_write (l : list (nat * ChunkedArray)) : forall grid r c column value,
  NoDup l.*1 ->
  (c, column) ∈ l ->
  column_values snprintf_g6 column !! r = Some value ->
  Z.of_nat r < row_count ->
  is_Some (grid_cell grid r c) ->
  grid_cell (foldl (fun g '(col, column) => fill_column snprintf_g6 row_count g col column)
               grid l) r c
  = Some (Some (Libc.strdup_c_str value)).
Proof.
  induction l as [|[col0 column0] rest IH]; intros grid r c column value Hnd Hin Hv Hr Hcell.
  - inversion Hin.
  - cbn [foldl]. rewrite fmap_cons in Hnd. apply NoDup_cons in Hnd as [Hfresh Hnd].
    apply elem_of_cons in Hin as [[= -> ->]|Hin].
    + rewrite fill_columns_other_column by exact Hfresh.
      apply fill_column_write; assumption.
    + assert (c <> col0) as Hne.
      { intros ->. apply Hfresh. apply list_elem_of_fmap. exists (col0, column). auto. }
      apply (IH _ r c column value Hnd Hin Hv Hr).
      rewrite fill_column_other_column by exact Hne. exact Hcell.
Qed.

Lemma table_to_grid_cell table r c column value :
  table_columns table !! c = Some column ->
  column_values snprintf_g6 column !! r = Some value ->
  Z.of_nat r < row_count ->
  grid_cell (table_to_grid snprintf_g6 row_count table) r c
  = Some (Some (Libc.strdup_c_str value)).
Proof.
  intros Hc Hv Hr. unfold table_to_grid.
  apply (fill_columns_write _ _ r c column value).
  - rewrite fmap_imap.
    rewrite (imap_ext _ (fun j _ => j)) by reflexivity.
    rewrite imap_seq_0, list_fmap_id. apply NoDup_seq.
  - apply (elem_of_lookup_imap_2 (fun col column => (col, column)) _ _ _ Hc).
  - exact Hv.
  - exact Hr.
  - unfold grid_cell, table_num_columns.
    rewrite lookup_replicate_2 by lia. cbn [mbind option_bind].
    rewrite lookup_replicate_2; [eauto|].
    rewrite Nat2Z.id. eapply lookup_lt_Some, Hc.
Qed.

Lemma rows_in_length column :
  length (column_values snprintf_g6 column) = rows_in column.
Proof.
  unfold column_values, rows_in.
  induction column as [|chunk rest IH]; [reflexivity|].
  cbn [map concat foldr]. rewrite length_app, IH. unfold chunk_values.
  rewrite length_map. reflexivity.
Qed.

Lemma column_values_slot column : forall k chunk i slot,
  column !! k = Some chunk ->
  slots chunk !! i = Some slot ->
  column_values snprintf_g6 column !! row_of_slot column k i
  = Some (stringify snprintf_g6 chunk slot).
Proof.
  unfold row_of_slot.
  induction column as [|chunk0 rest IH]; intros k chunk i slot Hk Hi; [discriminate Hk|].
  change (column_values snprintf_g6 (chunk0 :: rest))
    with (chunk_values snprintf_g6 chunk0 ++ column_values snprintf_g6 rest).
  destruct k as [|k].
  - injection Hk as ->. change (rows_in (take 0 (chunk :: rest)) + i)%nat with i.
    apply lookup_app_l_Some.
    unfold chunk_values. rewrite list_lookup_fmap, Hi. reflexivity.
  - cbn [lookup list_lookup] in Hk. cbn [take].
    change (rows_in (chunk0 :: take k rest))
      with (length (slots chunk0) + rows_in (take k rest))%nat.
    rewrite lookup_app_r by (unfold chunk_values; rewrite length_map; lia).
    unfold chunk_values at 1. rewrite length_map.
    replace (length (slots chunk0) + rows_in (take k rest) + i - length (slots chunk0))%nat
      with (rows_in (take k rest) + i)%nat by lia.
    apply IH; assumption.
Qed.

End FillGrid.


(* ===================================================================== *)
(** * Properties: the physical read *)
(* ===================================================================== *)

Lemma select_row_groups_bound sizes rg current_row start_row end_row i :
  i ∈ select_row_groups sizes rg current_row start_row end_row ->
  (rg <= i < rg + length sizes)%nat.
Proof.
  revert rg current_row.
  induction sizes as [|size rest IH]; intros rg current_row; simpl.
  - intros H. inversion H.
  - intros H.
    assert (i = rg \/ i ∈ select_row_groups rest (S rg) (int64 (current_row + size))
                               start_row end_row) as [-> | Hin].
    { destruct ((int64 (current_row + size) >? start_row) && (current_row <? end_row));
        destruct (int64 (current_row + size) >=? end_row); simpl in H.
      - apply list_elem_of_singleton in H. auto.
      - apply elem_of_cons in H. tauto.
      - inversion H.
      - auto. }
    + lia.
    + apply IH in Hin. lia.
Qed.

Lemma ReadRowGroups_is_Some f indices :
  readable f ->
  Forall (fun rg => (rg < length (row_groups f))%nat) indices ->
  is_Some (ReadRowGroups f indices).
Proof.
  intros [[fields Hs] Hgroups] Hidx. unfold ReadRowGroups. rewrite Hs. simpl.
  assert (is_Some (mapM (fun rg => row_groups f !! rg ≫= rg_columns) indices))
    as [groups ->].
  { apply mapM_is_Some. eapply Forall_impl; [exact Hidx|].
    intros rg Hlt. simpl.
    destruct (lookup_lt_is_Some_2 _ _ Hlt) as [g Hg]. rewrite Hg. simpl.
    rewrite Forall_forall in Hgroups. apply Hgroups.
    eapply list_elem_of_lookup_2. exact Hg. }
  simpl. eauto.
Qed.

Lemma ReadTable_is_Some f : readable f -> is_Some (ReadTable f).
Proof.
  intros Hf. apply ReadRowGroups_is_Some; [exact Hf|].
  apply Forall_forall. intros rg Hin. apply elem_of_seq in Hin. lia.
Qed.

Lemma read_window_is_Some f start_row end_row row_count :
  readable f -> is_Some (read_window f start_row end_row row_count).
Proof.
  intros Hf. unfold read_window.
  set (to_read := row_groups_to_read f start_row end_row).
  assert (is_Some (if Z.of_nat (length to_read) =? num_row_groups f
                   then ReadTable f else ReadRowGroups f to_read)) as [table ->].
  { destruct (_ =? _); [apply ReadTable_is_Some, Hf|].
    apply ReadRowGroups_is_Some; [exact Hf|].
    apply Forall_forall. intros rg Hin.
    apply select_row_groups_bound in Hin. rewrite length_map in Hin. lia. }
  simpl. eauto.
Qed.

Lemma read_rows_is_Some snprintf_g6 f start_row num_rows :
  readable f -> is_Some (read_rows snprintf_g6 f start_row num_rows).
Proof.
  intros Hf. unfold read_rows.
  destruct (_ <=? 0); [eauto|].
  destruct (read_window_is_Some f start_row
              (Z.min (int32 (start_row + num_rows)) (Parquet.num_rows f))
              (int32 (int64 (Z.min (int32 (start_row + num_rows)) (Parquet.num_rows f)
                             - start_row))) Hf) as [table ->].
  simpl. eauto.
Qed.

(** C6: a null slot of a chunk of any type is stored as "NULL", a BOOL
    value as "true" or "false", and a value of a type outside the nine
    cases of the switch as "UNSUPPORTED"; a column of such a type does not
    fail the request.  On a readable file read_parquet_data returns a
    result; every assigned cell of it is the copy of a value the switch
    produced, and the cell of row r and column c is the copy of the value
    of the slot that row r of column c of the table holds. *)
Theorem stringify_null_bool_unsupported
    (snprintf_g6 : PrimFloat.float -> string) (f : File) (start_row num_rows : Z) :
  readable f ->
  (forall chunk, Libc.strdup_c_str (stringify snprintf_g6 chunk None) = "NULL") /\
  (forall vals,
     Libc.strdup_c_str (stringify snprintf_g6 (mk_Array BOOL vals) (Some true)) = "true" /\
     Libc.strdup_c_str (stringify snprintf_g6 (mk_Array BOOL vals) (Some false)) = "false") /\
  (forall id vals v,
     Libc.strdup_c_str (stringify snprintf_g6 (mk_Array (OTHER id) vals) (Some v))
       = "UNSUPPORTED") /\
  (exists d,
     read_rows snprintf_g6 f start_row num_rows = Some d /\
     forall rows, data d = Some rows ->
       cells_stringified snprintf_g6 rows /\
       exists table,
         read_window f start_row
           (Z.min (int32 (start_row + num_rows)) (Parquet.num_rows f)) (row_count d)
           = Some table /\
         forall c column k chunk i slot,
           table_columns table !! c = Some column ->
           column !! k = Some chunk ->
           slots chunk !! i = Some slot ->
           Z.of_nat (row_of_slot column k i) < row_count d ->
           grid_cell rows (row_of_slot column k i) c
           = Some (Some (Libc.strdup_c_str (stringify snprintf_g6 chunk slot)))).
Proof.
  intros Hf.
  split; [intros chunk; reflexivity|].
  split; [intros vals; split; reflexivity|].
  split; [intros id vals v; reflexivity|].
  destruct (read_rows_is_Some snprintf_g6 f start_row num_rows Hf) as [d Hd].
  exists d. split; [exact Hd|].
  intros rows Hrows. unfold read_rows in Hd.
  destruct (_ <=? 0).
  - injection Hd as <-. discriminate Hrows.
  - destruct (read_window _ _ _ _) as [table|] eqn:Htable; [|discriminate Hd].
    simpl in Hd. injection Hd as <-. simpl in Hrows. injection Hrows as <-.
    split; [apply table_to_grid_stringified|].
    exists table. split; [exact Htable|].
    intros c column k chunk i slot Hc Hk Hi Hr. cbn [row_count] in Hr |- *.
    eapply table_to_grid_cell; [exact Hc| |exact Hr].
    apply column_values_slot; assumption.
Qed.

Lemma readable_mixed_file : readable mixed_file.
Proof.
  split; [eexists; reflexivity|].
  repeat constructor; eexists; reflexivity.
Defined.

Lemma stringify_null_bool_unsupported_witness :
  readable mixed_file /\
  (forall chunk, Libc.strdup_c_str (stringify no_floats chunk None) = "NULL") /\
  (forall vals,
     Libc.strdup_c_str (stringify no_floats (mk_Array BOOL vals) (Some true)) = "true" /\
     Libc.strdup_c_str (stringify no_floats (mk_Array BOOL vals) (Some false)) = "false") /\
  (forall id vals v,
     Libc.strdup_c_str (stringify no_floats (mk_Array (OTHER id) vals) (Some v))
       = "UNSUPPORTED") /\
  (exists d,
     read_rows no_floats mixed_file 0 2 = Some d /\
     forall rows, data d = Some rows ->
       cells_stringified no_floats rows /\
       exists table,
         read_window mixed_file 0
           (Z.min (int32 (0 + 2)) (Parquet.num_rows mixed_file)) (row_count d)
           = Some table /\
         forall c column k chunk i slot,
           table_columns table !! c = Some column ->
           column !! k = Some chunk ->
           slots chunk !! i = Some slot ->
           Z.of_nat (row_of_slot column k i) < row_count d ->
           grid_cell rows (row_of_slot column k i) c
           = Some (Some (Libc.strdup_c_str (stringify no_floats chunk slot)))).
Proof.
  split; [exact readable_mixed_file|].
  exact (stringify_null_bool_unsupported no_floats mixed_file 0 2 readable_mixed_file).
Defined.

(** The two rows of [mixed_file], as the reader returns them. *)
Example read_rows_mixed_file :
  read_rows no_floats mixed_file 0 2
  = Some (mk_TableData
            (Some [[Some "true"; Some "UNSUPPORTED"]; [Some "NULL"; Some "NULL"]])
            2 2).
Proof. vm_compute. reflexivity. Qed.

(* ===================================================================== *)
(** * Properties: the reader cache *)
(* ===================================================================== *)

Lemma get_cached_reader_hit disk file_path st reader :
  reader_cache st !! file_path = Some reader ->
  get_cached_reader disk file_path st = (Some reader, st).
Proof. intros H. unfold get_cached_reader. rewrite H. reflexivity. Qed.

Lemma get_cached_reader_open_fails disk file_path st :
  reader_cache st !! file_path = None ->
  open_fails (disk file_path) ->
  get_cached_reader disk file_path st
  = (None, mk_State (reader_cache st) (file_path :: open_calls st) (next_reader_id st)).
Proof.
  intros Hmiss Hfail. unfold get_cached_reader. rewrite Hmiss.
  destruct (disk file_path); simpl in Hfail; [reflexivity..|contradiction].
Qed.

Lemma get_cached_reader_opened disk file_path st f :
  reader_cache st !! file_path = None ->
  disk file_path = Opened f ->
  get_cached_reader disk file_path st
  = (Some (mk_FileReader (next_reader_id st) f),
     mk_State (<[file_path := mk_FileReader (next_reader_id st) f]> (reader_cache st))
              (file_path :: open_calls st) (S (next_reader_id st))).
Proof. intros Hmiss Hf. unfold get_cached_reader. rewrite Hmiss, Hf. reflexivity. Qed.

(** The two query functions change the state only through
    [get_cached_reader]. *)
Lemma read_parquet_schema_state disk file_path st :
  snd (read_parquet_schema disk file_path st) = snd (get_cached_reader disk file_path st).
Proof.
  unfold read_parquet_schema.
  destruct (get_cached_reader disk file_path st) as [[reader|] st']; [|reflexivity].
  destruct (arrow_schema (reader_file reader)); reflexivity.
Qed.

Lemma read_parquet_data_state snprintf_g6 disk file_path start_row num_rows st :
  snd (read_parquet_data snprintf_g6 disk file_path start_row num_rows st)
  = snd (get_cached_reader disk file_path st).
Proof.
  unfold read_parquet_data.
  destruct (get_cached_reader disk file_path st) as [[reader|] st']; reflexivity.
Qed.

(** An acquire never replaces or removes a cached reader, and records an
    open for the path it was asked for only. *)
Lemma get_cached_reader_keeps disk p st file_path reader :
  reader_cache st !! file_path = Some reader ->
  reader_cache (snd (get_cached_reader disk p st)) !! file_path = Some reader.
Proof.
  intros H. unfold get_cached_reader.
  destruct (reader_cache st !! p) eqn:Hp; [exact H|].
  destruct (disk p); simpl; try exact H.
  rewrite lookup_insert_ne; [exact H|]. intros ->. congruence.
Qed.

Lemma get_cached_reader_open_count disk p st file_path :
  is_Some (reader_cache st !! file_path) ->
  open_count file_path (snd (get_cached_reader disk p st)) = open_count file_path st.
Proof.
  intros [reader H]. unfold get_cached_reader.
  destruct (reader_cache st !! p) eqn:Hp; [reflexivity|].
  assert (p <> file_path) as Hne by (intros ->; congruence).
  unfold open_count.
  destruct (disk p); simpl; rewrite filter_cons_False by exact Hne; reflexivity.
Qed.

Lemma run_call_keeps snprintf_g6 st c file_path reader :
  ~ invalidates file_path c ->
  reader_cache st !! file_path = Some reader ->
  reader_cache (run_call snprintf_g6 st c) !! file_path = Some reader
  /\ open_count file_path (run_call snprintf_g6 st c) = open_count file_path st.
Proof.
  intros Hc H. destruct c as [disk p|disk p s n|p|]; simpl in *.
  - rewrite read_parquet_schema_state.
    split; [apply get_cached_reader_keeps, H|apply get_cached_reader_open_count; eauto].
  - rewrite read_parquet_data_state.
    split; [apply get_cached_reader_keeps, H|apply get_cached_reader_open_count; eauto].
  - split; [|reflexivity]. rewrite lookup_delete_ne; [exact H|exact Hc].
  - contradiction.
Qed.

Lemma run_calls_keeps snprintf_g6 cs st file_path reader :
  Forall (fun c => ~ invalidates file_path c) cs ->
  reader_cache st !! file_path = Some reader ->
  reader_cache (run_calls snprintf_g6 st cs) !! file_path = Some reader
  /\ open_count file_path (run_calls snprintf_g6 st cs) = open_count file_path st.
Proof.
  intros Hcs. revert st.
  induction Hcs as [|c cs Hc _ IH]; intros st H; simpl; [auto|].
  destruct (run_call_keeps snprintf_g6 st c file_path reader Hc H) as [Hk Ho].
  destruct (IH _ Hk) as [Hk' Ho']. split; [exact Hk'|congruence].
Qed.

(** A successful acquire leaves the reader it returns in the cache. *)
Lemma get_cached_reader_caches disk file_path st reader st1 :
  get_cached_reader disk file_path st = (Some reader, st1) ->
  reader_cache st1 !! file_path = Some reader.
Proof.
  unfold get_cached_reader.
  destruct (reader_cache st !! file_path) eqn:Hp.
  - intros [= <- <-]. exact Hp.
  - destruct (disk file_path); intros [= <- <-]. simpl. apply lookup_insert_eq.
Qed.

Lemma get_cached_reader_wf disk p st :
  cache_wf st -> cache_wf (snd (get_cached_reader disk p st)).
Proof.
  intros [Hlt Hinj]. unfold get_cached_reader.
  destruct (reader_cache st !! p) eqn:Hp; [split; assumption|].
  destruct (disk p) as [| | | |f]; simpl; try (split; assumption).
  split; simpl.
  - intros q r Hq. destruct (decide (p = q)) as [<-|Hne].
    + rewrite lookup_insert_eq in Hq. injection Hq as <-. simpl. lia.
    + rewrite lookup_insert_ne in Hq by exact Hne. apply Hlt in Hq. lia.
  - intros q1 q2 r1 r2 H1 H2 Hid.
    destruct (decide (p = q1)) as [<-|Hne1]; destruct (decide (p = q2)) as [<-|Hne2];
      [reflexivity| | |].
    + rewrite lookup_insert_eq in H1. injection H1 as <-.
      rewrite lookup_insert_ne in H2 by exact Hne2. apply Hlt in H2. simpl in Hid. lia.
    + rewrite lookup_insert_eq in H2. injection H2 as <-.
      rewrite lookup_insert_ne in H1 by exact Hne1. apply Hlt in H1. simpl in Hid. lia.
    + rewrite lookup_insert_ne in H1 by exact Hne1.
      rewrite lookup_insert_ne in H2 by exact Hne2. eapply Hinj; eassumption.
Qed.

Lemma run_call_wf snprintf_g6 st c : cache_wf st -> cache_wf (run_call snprintf_g6 st c).
Proof.
  intros Hwf. destruct c as [disk p|disk p s n|p|]; simpl.
  - rewrite read_parquet_schema_state. apply get_cached_reader_wf, Hwf.
  - rewrite read_parquet_data_state. apply get_cached_reader_wf, Hwf.
  - destruct Hwf as [Hlt Hinj]. split; simpl.
    + intros q r Hq. apply lookup_delete_Some in Hq as [_ Hq]. eapply Hlt, Hq.
    + intros q1 q2 r1 r2 H1 H2.
      apply lookup_delete_Some in H1 as [_ H1]. apply lookup_delete_Some in H2 as [_ H2].
      eapply Hinj; eassumption.
  - split; simpl; intros *; rewrite lookup_empty; discriminate.
Qed.

Lemma reachable_wf st : reachable st -> cache_wf st.
Proof.
  intros (snprintf_g6 & cs & ->).
  assert (cache_wf initial_state) as Hinit.
  { split; simpl; intros *; rewrite lookup_empty; discriminate. }
  revert Hinit. generalize initial_state as st. unfold run_calls.
  induction cs as [|c cs IH]; intros st Hwf; simpl; [exact Hwf|].
  apply IH, run_call_wf, Hwf.
Qed.

(** C5: when the open sequence runs for a path (no reader of it is cached)
    and fails at any of its steps, read_parquet_schema and
    read_parquet_data both return the null pointer, and the cache is left
    as it was: it has no entry for the path. *)
Theorem failed_open_returns_null_and_is_not_cached
    (snprintf_g6 : PrimFloat.float -> string) (disk : Disk) (file_path : string)
    (start_row num_rows : Z) (st : State) :
  reader_cache st !! file_path = None ->
  open_fails (disk file_path) ->
  let schema_call := read_parquet_schema disk file_path st in
  let data_call := read_parquet_data snprintf_g6 disk file_path start_row num_rows st in
  fst schema_call = None /\ fst data_call = None /\
  reader_cache (snd schema_call) = reader_cache st /\
  reader_cache (snd data_call) = reader_cache st /\
  reader_cache (snd schema_call) !! file_path = None /\
  reader_cache (snd data_call) !! file_path = None.
Proof.
  intros Hmiss Hfail. simpl.
  unfold read_parquet_schema, read_parquet_data.
  rewrite (get_cached_reader_open_fails disk file_path st Hmiss Hfail). simpl.
  repeat split; exact Hmiss.
Qed.

Lemma failed_open_returns_null_and_is_not_cached_witness :
  reader_cache initial_state !! "missing.parquet" = None /\
  open_fails (empty_disk "missing.parquet") /\
  (let schema_call := read_parquet_schema empty_disk "missing.parquet" initial_state in
   let data_call :=
     read_parquet_data no_floats empty_disk "missing.parquet" 0 10 initial_state in
   fst schema_call = None /\ fst data_call = None /\
   reader_cache (snd schema_call) = reader_cache initial_state /\
   reader_cache (snd data_call) = reader_cache initial_state /\
   reader_cache (snd schema_call) !! "missing.parquet" = None /\
   reader_cache (snd data_call) !! "missing.parquet" = None).
Proof.
  split; [reflexivity|]. split; [exact I|].
  exact (failed_open_returns_null_and_is_not_cached no_floats empty_disk
           "missing.parquet" 0 10 initial_state eq_refl I).
Defined.

(** C7, as amended: once get_cached_reader has returned a reader for a
    path, every later call for that path returns the same reader object and
    leaves the state as it is, so the file is not opened again, whatever
    calls that do not invalidate the path happen in between and whatever
    the disk then holds.  At any time the cache holds at most one reader
    per path string, compared as it is passed, and no reader is held under
    two paths. *)
Theorem get_cached_reader_idempotent
    (snprintf_g6 : PrimFloat.float -> string) (disk : Disk) (file_path : string)
    (st st1 : State) (reader : FileReader) (calls : list Call) :
  reachable st ->
  get_cached_reader disk file_path st = (Some reader, st1) ->
  Forall (fun c => ~ invalidates file_path c) calls ->
  let st2 := run_calls snprintf_g6 st1 calls in
  (forall disk', get_cached_reader disk' file_path st2 = (Some reader, st2)) /\
  open_count file_path st2 = open_count file_path st1 /\
  (forall p r1 r2,
     (p, r1) ∈ map_to_list (reader_cache st) -> (p, r2) ∈ map_to_list (reader_cache st) ->
     r1 = r2) /\
  (forall p q r1 r2,
     reader_cache st !! p = Some r1 -> reader_cache st !! q = Some r2 ->
     reader_id r1 = reader_id r2 -> p = q).
Proof.
  intros Hreach Hget Hcalls st2.
  apply get_cached_reader_caches in Hget.
  destruct (run_calls_keeps snprintf_g6 calls st1 file_path reader Hcalls Hget)
    as [Hkeep Hopens].
  split; [intros disk'; apply get_cached_reader_hit, Hkeep|].
  split; [exact Hopens|]. split.
  - intros p r1 r2 H1 H2.
    apply elem_of_map_to_list in H1. apply elem_of_map_to_list in H2. congruence.
  - apply reachable_wf, Hreach.
Qed.

Lemma get_cached_reader_idempotent_witness :
  reachable initial_state /\
  get_cached_reader a_disk "a.parquet" initial_state
    = (Some (mk_FileReader 0 five_rows), a_cached) /\
  Forall (fun c => ~ invalidates "a.parquet" c) other_calls /\
  (forall disk',
     get_cached_reader disk' "a.parquet" (run_calls no_floats a_cached other_calls)
     = (Some (mk_FileReader 0 five_rows), run_calls no_floats a_cached other_calls)) /\
  open_count "a.parquet" (run_calls no_floats a_cached other_calls)
    = open_count "a.parquet" a_cached.
Proof.
  assert (reachable initial_state) as Hreach by (exists no_floats, []; reflexivity).
  assert (get_cached_reader a_disk "a.parquet" initial_state
          = (Some (mk_FileReader 0 five_rows), a_cached)) as Hget by reflexivity.
  assert (Forall (fun c => ~ invalidates "a.parquet" c) other_calls) as Hcalls.
  { repeat constructor; simpl; try tauto. discriminate. }
  split; [exact Hreach|]. split; [exact Hget|]. split; [exact Hcalls|].
  pose proof (get_cached_reader_idempotent no_floats a_disk "a.parquet" initial_state
                a_cached (mk_FileReader 0 five_rows) other_calls Hreach Hget Hcalls)
    as (Hsame & Hopens & _).
  split; [exact Hsame|exact Hopens].
Defined.

(** C8: clear_parquet_cache removes the cached reader of the path and
    touches no other entry; without a cached reader it leaves the state as
    it is.  The next read_parquet_schema (or get_cached_reader) on the path
    calls the open sequence again and, when that succeeds, caches a reader
    object built after every reader the cache ever held, so not the prior
    one.  clear_all_parquet_cache leaves the cache empty. *)
Theorem clear_parquet_cache_forces_reopen (disk : Disk) (file_path : string) (st : State) :
  reachable st ->
  let cleared := clear_parquet_cache file_path st in
  reader_cache cleared !! file_path = None /\
  (forall q, q <> file_path -> reader_cache cleared !! q = reader_cache st !! q) /\
  (reader_cache st !! file_path = None -> cleared = st) /\
  (let st' := snd (read_parquet_schema disk file_path cleared) in
   st' = snd (get_cached_reader disk file_path cleared) /\
   open_calls st' = file_path :: open_calls st /\
   forall f, disk file_path = Opened f ->
     fst (get_cached_reader disk file_path cleared)
       = Some (mk_FileReader (next_reader_id st) f) /\
     reader_cache st' !! file_path = Some (mk_FileReader (next_reader_id st) f) /\
     forall q prior, reader_cache st !! q = Some prior ->
       reader_id prior <> next_reader_id st) /\
  reader_cache (clear_all_parquet_cache st) = ∅.
Proof.
  intros Hreach cleared.
  assert (reader_cache cleared !! file_path = None) as Hgone
    by (simpl; apply lookup_delete_eq).
  split; [exact Hgone|].
  split; [intros q Hq; simpl; apply lookup_delete_ne; congruence|].
  split.
  { intros Hmiss. subst cleared. unfold clear_parquet_cache.
    rewrite delete_id by exact Hmiss. destruct st; reflexivity. }
  split; [|reflexivity].
  simpl. rewrite read_parquet_schema_state.
  split; [reflexivity|]. split.
  - unfold get_cached_reader. rewrite Hgone. destruct (disk file_path); reflexivity.
  - intros f Hf.
    rewrite (get_cached_reader_opened disk file_path cleared f Hgone Hf). simpl.
    split; [reflexivity|]. split; [apply lookup_insert_eq|].
    intros q prior Hq. apply reachable_wf in Hreach as [Hlt _].
    apply Hlt in Hq. lia.
Qed.

Lemma clear_parquet_cache_forces_reopen_witness :
  reachable a_cached /\
  reader_cache a_cached !! "a.parquet" = Some (mk_FileReader 0 five_rows) /\
  reader_cache (clear_parquet_cache "a.parquet" a_cached) !! "a.parquet" = None /\
  open_calls (snd (read_parquet_schema a_disk "a.parquet"
                     (clear_parquet_cache "a.parquet" a_cached)))
    = ["a.parquet"; "a.parquet"] /\
  fst (get_cached_reader a_disk "a.parquet" (clear_parquet_cache "a.parquet" a_cached))
    = Some (mk_FileReader 1 five_rows).
Proof.
  assert (reachable a_cached) as Hreach.
  { exists no_floats, [Call_read_parquet_schema a_disk "a.parquet"]. reflexivity. }
  split; [exact Hreach|]. split; [reflexivity|].
  pose proof (clear_parquet_cache_forces_reopen a_disk "a.parquet" a_cached Hreach)
    as (Hgone & _ & _ & (_ & Hopens & Hnew) & _).
  split; [exact Hgone|]. split; [exact Hopens|].
  exact (proj1 (Hnew five_rows eq_refl)).
Defined.

(** The cache is keyed by the path string: two spellings of the path of one
    file are two keys, the file is opened twice and two readers of it are
    live at once. *)
Lemma two_spellings_two_readers :
  normalize_path "./a.parquet" = normalize_path "a.parquet" /\
  reader_cache
    (run_calls no_floats initial_state
       [Call_read_parquet_schema (two_spellings_disk five_rows) "a.parquet";
        Call_read_parquet_schema (two_spellings_disk five_rows) "./a.parquet"])
    !! "a.parquet" = Some (mk_FileReader 0 five_rows) /\
  reader_cache
    (run_calls no_floats initial_state
       [Call_read_parquet_schema (two_spellings_disk five_rows) "a.parquet";
        Call_read_parquet_schema (two_spellings_disk five_rows) "./a.parquet"])
    !! "./a.parquet" = Some (mk_FileReader 1 five_rows) /\
  open_calls
    (run_calls no_floats initial_state
       [Call_read_parquet_schema (two_spellings_disk five_rows) "a.parquet";
        Call_read_parquet_schema (two_spellings_disk five_rows) "./a.parquet"])
    = ["./a.parquet"; "a.parquet"].
Proof. repeat split; reflexivity. Qed.

(* ===================================================================== *)
(** * Properties: the row window *)
(* ===================================================================== *)

(** C1, where the code departs from it: on a file of 10 row groups of 100
    rows, for start_row = 250 and num_rows = 10, the reader selects row
    group 2 alone; 200 rows precede that group, so the window starts 50
    rows into it.  The offset loop restarts its running total at 0 and adds
    only the groups that were read, never exceeds start_row, and leaves the
    offset at 0: the result holds file rows 200 to 209. *)
Theorem offset_in_table_restarts_running_total :
  let f := id_file (replicate 10 100%nat) in
  row_groups_to_read f 250 260 = [2%nat] /\
  250 - rows_before f 2 = 50 /\
  offset_in_table f [2%nat] 0 250 = 0 /\
  read_rows no_floats f 250 10
  = Some (mk_TableData
            (Some [[Some "200"]; [Some "201"]; [Some "202"]; [Some "203"]; [Some "204"];
                   [Some "205"]; [Some "206"]; [Some "207"]; [Some "208"]; [Some "209"]])
            10 1).
Proof. vm_compute. repeat split; reflexivity. Qed.

(** C2, where the code departs from it: on a file with row groups of 3, 2
    and 2 rows, the window of 2 rows from row 4 spans the groups 1 and 2.
    Reading the whole file and slicing gives the file rows 4 and 5; the
    reader, which reads the groups 1 and 2 and slices at offset 0, returns
    the file rows 3 and 4. *)
Theorem selected_read_differs_from_whole_file :
  let f := id_file [3; 2; 2]%nat in
  row_groups_to_read f 4 6 = [1; 2]%nat /\
  offset_in_table f [1; 2]%nat 0 4 = 0 /\
  read_rows no_floats f 4 2 = Some (mk_TableData (Some [[Some "3"]; [Some "4"]]) 2 1) /\
  whole_file_window no_floats f 4 2 = Some [[Some "4"]; [Some "5"]].
Proof. vm_compute. repeat split; reflexivity. Qed.

(** A window that starts in the first row group is read as from the whole
    file: rows 1 to 4 of a file with row groups of 3, 2 and 2 rows. *)
Example window_from_first_group :
  row_groups_to_read (id_file [3; 2; 2]%nat) 1 5 = [0; 1]%nat /\
  read_rows no_floats (id_file [3; 2; 2]%nat) 1 4
  = Some (mk_TableData (Some [[Some "1"]; [Some "2"]; [Some "3"]; [Some "4"]]) 4 1) /\
  whole_file_window no_floats (id_file [3; 2; 2]%nat) 1 4
  = Some [[Some "1"]; [Some "2"]; [Some "3"]; [Some "4"]].
Proof. vm_compute. repeat split; reflexivity. Qed.

(** A window that runs past the end is clamped: on 10 row groups of 100
    rows, 50 rows from row 995 give 5 rows from the last group alone, which
    the slice takes from the start of that group. *)
Example window_clamped_at_end :
  row_groups_to_read (id_file (replicate 10 100%nat)) 995 1000 = [9%nat] /\
  read_rows no_floats (id_file (replicate 10 100%nat)) 995 50
  = Some (mk_TableData
            (Some [[Some "900"]; [Some "901"]; [Some "902"]; [Some "903"]; [Some "904"]])
            5 1).
Proof. vm_compute. split; reflexivity. Qed.

(** C3, where the code departs from it: on a file of 5 rows, for
    start_row = 10 and num_rows = 3, the window is empty and the result is
    not null, with no columns and a null data pointer, but its row_count is
    5 - 10 = -5, not 0. *)
Theorem empty_window_row_count_is_negative :
  let f := id_file [2; 3]%nat in
  Parquet.num_rows f = 5 /\
  read_rows no_floats f 10 3 = Some (mk_TableData None (-5) 0).
Proof. vm_compute. split; reflexivity. Qed.

(** C4, where the code departs from it: on a file with row groups of 2, 0,
    2 and 2 rows, for the window of rows 1 and 2, the reader selects the
    groups 0, 1 and 2.  Group 1 starts at row 2 and has no rows: its
    interval has no row in common with the window. *)
Theorem empty_row_group_is_selected :
  let f := id_file [2; 0; 2; 2]%nat in
  row_groups_to_read f 1 3 = [0; 1; 2]%nat /\
  rows_before f 1 = 2 /\ RowGroup_num_rows f 1 = 0 /\
  ~ intersects (rows_before f 1) (RowGroup_num_rows f 1) 1 3.
Proof.
  split; [vm_compute; reflexivity|].
  split; [reflexivity|]. split; [reflexivity|].
  change (rows_before (id_file [2; 0; 2; 2]%nat) 1) with 2.
  change (RowGroup_num_rows (id_file [2; 0; 2; 2]%nat) 1) with 0.
  intros (r & Hr & _). lia.
Qed.

(* ===================================================================== *)
(** * Properties: the release functions *)
(* ===================================================================== *)

(** C9, where the code departs from it: on a file with row groups of 1, 10
    and 10 rows, for start_row = 5 and num_rows = 16, the reader reads the
    groups 1 and 2 (20 rows) and slices 16 rows at offset 5, which leaves
    15; the grid has 16 row arrays and the cell of the last one is never
    assigned.  free_table_data passes that cell to free. *)
Theorem free_table_data_reads_unassigned_cell :
  let f := id_file [1; 10; 10]%nat in
  exists rows,
    read_rows no_floats f 5 16 = Some (mk_TableData (Some rows) 16 1) /\
    length rows = 16%nat /\
    rows !! 14%nat = Some [Some "20"] /\
    rows !! 15%nat = Some [None] /\
    free_table_data (read_rows no_floats f 5 16) = None.
Proof.
  eexists. split; [vm_compute; reflexivity|].
  split; [reflexivity|]. split; [reflexivity|]. split; [reflexivity|].
  vm_compute. reflexivity.
Qed.

(* ===================================================================== *)
(** * Properties: what the selection and the offset loop do compute *)
(* ===================================================================== *)

Lemma intersects_iff lo size start_row end_row :
  intersects lo size start_row end_row
  <-> 0 < size /\ start_row < end_row /\ start_row < lo + size /\ lo < end_row.
Proof.
  split.
  - intros (r & Hr1 & Hr2). lia.
  - intros H. exists (Z.max lo start_row). lia.
Qed.

Lemma sum_rows_nonneg sizes : Forall (fun size => 0 <= size) sizes -> 0 <= sum_rows sizes.
Proof. induction 1 as [|size rest Hsize _ IH]; simpl; [lia|]. unfold sum_rows in *. simpl. lia. Qed.

Lemma sum_rows_take_nonneg sizes i :
  Forall (fun size => 0 <= size) sizes -> 0 <= sum_rows (take i sizes).
Proof. intros H. apply sum_rows_nonneg, Forall_take, H. Qed.

Section Selection.

Variables start_row end_row : Z.

(** Membership in the selection, for groups of any size: group [rg + i]
    is selected exactly when the two comparisons of line 132 hold at its
    running total.  The loop leaves before the groups whose running total
    has reached [end_row], and for them the second comparison fails. *)
Lemma select_row_groups_member sizes : forall rg current_row i size,
  Forall (fun size => 0 <= size) sizes ->
  - 2 ^ 63 <= current_row ->
  current_row + sum_rows sizes < 2 ^ 63 ->
  sizes !! i = Some size ->
  ((rg + i)%nat ∈ select_row_groups sizes rg current_row start_row end_row
   <-> start_row < current_row + sum_rows (take i sizes) + size
       /\ current_row + sum_rows (take i sizes) < end_row).
Proof.
  induction sizes as [|size0 rest IH]; intros rg current_row i size Hpos Hlo Hhi Hi;
    [discriminate Hi|].
  apply Forall_cons in Hpos as [Hsize0 Hrest].
  pose proof (sum_rows_nonneg rest Hrest) as Hrest0.
  change (sum_rows (size0 :: rest)) with (size0 + sum_rows rest) in Hhi.
  cbn [select_row_groups].
  rewrite int64_small by (unfold in_int64; lia).
  destruct i as [|i]; cbn [take].
  - injection Hi as ->. change (sum_rows []) with 0.
    rewrite Nat.add_0_r.
    assert (rg ∉ select_row_groups rest (S rg) (current_row + size) start_row end_row)
      as Hnot.
    { intros Hin. apply select_row_groups_bound in Hin. lia. }
    destruct (Z.gtb_spec (current_row + size) start_row);
      destruct (Z.ltb_spec current_row end_row);
      destruct (Z.geb_spec (current_row + size) end_row); cbn [andb app];
      rewrite ?elem_of_cons, ?elem_of_nil; intuition lia.
  - cbn [lookup list_lookup] in Hi.
    pose proof (sum_rows_take_nonneg rest i Hrest) as Htake.
    change (sum_rows (size0 :: take i rest)) with (size0 + sum_rows (take i rest)).
    assert ((rg + S i)%nat ∉ (if (current_row + size0 >? start_row)
                                  && (current_row <? end_row)
                               then [rg] else [])) as Hsel.
    { destruct (_ && _); [rewrite list_elem_of_singleton|rewrite elem_of_nil]; lia. }
    destruct (Z.geb_spec (current_row + size0) end_row) as [Hbreak|Hgo].
    + split; [intros Hin; contradiction (Hsel Hin)|lia].
    + rewrite elem_of_app. replace (rg + S i)%nat with (S rg + i)%nat in * by lia.
      rewrite (IH (S rg) (current_row + size0) i size Hrest) by (assumption || lia).
      split; [intros [Hin|H]; [contradiction (Hsel Hin)|lia]|intros H; right; lia].
Qed.

(** A window inside one row group selects that group and no other. *)
Lemma select_row_groups_single sizes : forall rg current_row i size,
  Forall (fun size => 0 <= size) sizes ->
  - 2 ^ 63 <= current_row ->
  current_row + sum_rows sizes < 2 ^ 63 ->
  sizes !! i = Some size ->
  start_row < end_row ->
  current_row + sum_rows (take i sizes) <= start_row ->
  end_row <= current_row + sum_rows (take i sizes) + size ->
  select_row_groups sizes rg current_row start_row end_row = [(rg + i)%nat].
Proof.
  induction sizes as [|size0 rest IH];
    intros rg current_row i size Hpos Hlo Hhi Hi Hwin Hfrom Hto; [discriminate Hi|].
  apply Forall_cons in Hpos as [Hsize0 Hrest].
  pose proof (sum_rows_nonneg rest Hrest) as Hrest0.
  change (sum_rows (size0 :: rest)) with (size0 + sum_rows rest) in Hhi.
  cbn [select_row_groups].
  rewrite int64_small by (unfold in_int64; lia).
  destruct i as [|i]; cbn [take] in Hfrom, Hto.
  - injection Hi as ->. change (sum_rows []) with 0 in Hfrom, Hto.
    rewrite Nat.add_0_r.
    destruct (Z.gtb_spec (current_row + size) start_row); [|lia].
    destruct (Z.ltb_spec current_row end_row); [|lia].
    destruct (Z.geb_spec (current_row + size) end_row); [reflexivity|lia].
  - cbn [lookup list_lookup] in Hi.
    pose proof (sum_rows_take_nonneg rest i Hrest) as Htake.
    change (sum_rows (size0 :: take i rest)) with (size0 + sum_rows (take i rest))
      in Hfrom, Hto.
    destruct (Z.gtb_spec (current_row + size0) start_row); [lia|].
    destruct (Z.geb_spec (current_row + size0) end_row); [lia|].
    cbn [andb app]. replace (rg + S i)%nat with (S rg + i)%nat by lia.
    apply (IH (S rg) (current_row + size0) i size); assumption || lia.
Qed.

End Selection.

Lemma rows_before_all f :
  rows_before f (length (row_groups f)) = sum_rows (map rg_num_rows (row_groups f)).
Proof.
  unfold rows_before. rewrite firstn_all2; [reflexivity|]. rewrite length_map. lia.
Qed.

(** The selection of [read_parquet_data] on a well-formed file: group [rg]
    is read exactly when the window starts before its last row and ends
    after its first row position. *)
Lemma row_groups_to_read_member f start_row end_row rg g :
  metadata_ok f ->
  row_groups f !! rg = Some g ->
  (rg ∈ row_groups_to_read f start_row end_row
   <-> start_row < rows_before f rg + rg_num_rows g /\ rows_before f rg < end_row).
Proof.
  intros (Hpos & Htotal & Hmax) Hg. unfold row_groups_to_read, rows_before.
  pose proof (select_row_groups_member start_row end_row (map rg_num_rows (row_groups f))
                0 0 rg (rg_num_rows g) Hpos) as H.
  rewrite !Z.add_0_l in H. apply H.
  - lia.
  - rewrite <- Htotal. exact Hmax.
  - rewrite list_lookup_fmap, Hg. reflexivity.
Qed.

(** X2: on a well-formed file and for a window that is not empty, a row
    group that has rows is read exactly when its interval of rows and the
    window have a row in common. *)
Lemma row_groups_to_read_nonempty_group f start_row end_row rg g :
  metadata_ok f ->
  start_row < end_row ->
  row_groups f !! rg = Some g ->
  0 < rg_num_rows g ->
  (rg ∈ row_groups_to_read f start_row end_row
   <-> intersects (rows_before f rg) (rg_num_rows g) start_row end_row).
Proof.
  intros Hf Hwin Hg Hsize.
  rewrite (row_groups_to_read_member f start_row end_row rg g Hf Hg), intersects_iff.
  lia.
Qed.

(** A row group that starts at or after [end_row] is never read. *)
Lemma row_groups_to_read_after_window f start_row end_row rg :
  metadata_ok f ->
  end_row <= rows_before f rg ->
  rg ∉ row_groups_to_read f start_row end_row.
Proof.
  intros Hf Hafter Hin.
  destruct (row_groups f !! rg) as [g|] eqn:Hg.
  - apply (row_groups_to_read_member f start_row end_row rg g Hf Hg) in Hin. lia.
  - apply select_row_groups_bound in Hin. rewrite length_map in Hin.
    apply lookup_ge_None in Hg. lia.
Qed.

(** X3: on a well-formed file, a window that lies inside one row group
    reads that group alone. *)
Lemma row_groups_to_read_single_group f start_row end_row rg g :
  metadata_ok f ->
  row_groups f !! rg = Some g ->
  start_row < end_row ->
  rows_before f rg <= start_row ->
  end_row <= rows_before f rg + rg_num_rows g ->
  row_groups_to_read f start_row end_row = [rg].
Proof.
  intros (Hpos & Htotal & Hmax) Hg Hwin Hfrom Hto. unfold row_groups_to_read.
  apply (select_row_groups_single start_row end_row (map rg_num_rows (row_groups f))
           0 0 rg (rg_num_rows g) Hpos); try assumption.
  - lia.
  - rewrite Z.add_0_l, <- Htotal. exact Hmax.
  - rewrite list_lookup_fmap, Hg. reflexivity.
Qed.

(** The row count of a result, when [start_row + num_rows] fits an int:
    the clamped end of the window minus its start.  For a window that
    starts inside the file this is the number of rows the claim C3 gives;
    for one that starts after the last row it is negative. *)
Lemma read_rows_row_count snprintf_g6 f start_row num_rows d :
  in_int32 start_row -> in_int32 num_rows -> in_int32 (start_row + num_rows) ->
  0 <= Parquet.num_rows f ->
  read_rows snprintf_g6 f start_row num_rows = Some d ->
  row_count d = Z.min (start_row + num_rows) (Parquet.num_rows f) - start_row.
Proof.
  intros Hs Hn Hsum Htotal. unfold read_rows.
  rewrite (int32_small (start_row + num_rows)) by exact Hsum.
  set (end_row := Z.min (start_row + num_rows) (Parquet.num_rows f)).
  assert (int32 (int64 (end_row - start_row)) = end_row - start_row) as ->.
  { unfold in_int32 in *. change (2 ^ 31) with 2147483648 in *.
    rewrite int64_small by (unfold in_int64; change (2 ^ 63) with 9223372036854775808; lia).
    apply int32_small. unfold in_int32. change (2 ^ 31) with 2147483648. lia. }
  destruct (_ <=? 0); [intros [= <-]; reflexivity|].
  destruct (read_window _ _ _ _) as [table|]; [|discriminate].
  simpl. intros [= <-]. reflexivity.
Qed.

Lemma read_rows_row_count_inside snprintf_g6 f start_row num_rows d :
  in_int32 start_row -> in_int32 num_rows -> in_int32 (start_row + num_rows) ->
  0 <= start_row < Parquet.num_rows f -> 0 < num_rows ->
  read_rows snprintf_g6 f start_row num_rows = Some d ->
  row_count d = Z.max 0 (Z.min num_rows (Parquet.num_rows f - start_row)).
Proof.
  intros Hs Hn Hsum Hin Hpos Hd.
  rewrite (read_rows_row_count snprintf_g6 f start_row num_rows d) by (assumption || lia).
  lia.
Qed.

(** The offset loop gives the offset of C1 when no row precedes the first
    group that was read: the loop leaves at that group with the running
    total still 0. *)
Lemma offset_in_table_first_group f rg rest start_row :
  rows_before f rg = 0 ->
  in_int64 (RowGroup_num_rows f rg) -> in_int64 start_row ->
  start_row < RowGroup_num_rows f rg ->
  offset_in_table f (rg :: rest) 0 start_row = start_row - rows_before f rg.
Proof.
  intros Hbefore Hsize Hstart Hlt. cbn [offset_in_table].
  rewrite Z.add_0_l, Z.sub_0_r, Hbefore, Z.sub_0_r, !int64_small by assumption.
  destruct (Z.gtb_spec (RowGroup_num_rows f rg) start_row); [reflexivity|lia].
Qed.

(* ===================================================================== *)
(** * Properties: what the release functions do on complete results *)
(* ===================================================================== *)

(** A loop [for (i = 0; i < n; i++)] over an array of [n] elements visits
    each element once, in order. *)
Lemma mapM_lookup_seq {A B} (g : A -> option B) (pre l : list A) :
  mapM (fun i => (pre ++ l) !! i ≫= g) (seq (length pre) (length l)) = mapM g l.
Proof.
  revert pre. induction l as [|a l IH]; intros pre; [reflexivity|].
  cbn [length seq mapM].
  rewrite list_lookup_middle by reflexivity. cbn [mbind option_bind].
  specialize (IH (pre ++ [a])).
  rewrite <- app_assoc, length_app, Nat.add_1_r in IH. cbn [app] in IH.
  rewrite IH. reflexivity.
Qed.

Lemma mapM_total {A B} (g : A -> B) (l : list A) :
  mapM (fun x => Some (g x)) l = Some (map g l).
Proof.
  induction l as [|a l IH]; [reflexivity|].
  cbn [mapM map]. rewrite IH. reflexivity.
Qed.

Lemma mapM_lookup_all {A B} (g : A -> option B) (l : list A) :
  mapM (fun i => l !! i ≫= g) (seq 0 (length l)) = mapM g l.
Proof. exact (mapM_lookup_seq g [] l). Qed.

Lemma free_row_assigned column_count (row : list Cell) :
  Z.of_nat (length row) = column_count ->
  Forall is_Some row ->
  free_row column_count row = Some (map CString (row_strings row) ++ [RowArray]).
Proof.
  intros <- Hrow. unfold free_row. rewrite Nat2Z.id.
  rewrite (mapM_lookup_all (fun cell : Cell => cell ≫= fun s => Some (CString s)) row).
  assert (mapM (fun cell : Cell => cell ≫= fun s => Some (CString s)) row
          = Some (map CString (row_strings row))) as ->; [|reflexivity].
  induction Hrow as [|cell rest [s ->] _ IH]; [reflexivity|].
  cbn [mapM mbind option_bind]. rewrite IH. reflexivity.
Qed.

(** Both release functions do nothing on a null pointer. *)
Lemma free_null : free_schema_info None = Some [] /\ free_table_data None = Some [].
Proof. split; reflexivity. Qed.

(** [free_table_data] on the result of an empty window releases the
    struct alone, whatever its row count. *)
Lemma free_table_data_empty_result n :
  free_table_data (Some (mk_TableData None n 0)) = Some [TableDataStruct].
Proof. reflexivity. Qed.

(** [free_table_data] on a grid with [row_count] rows of [column_count]
    assigned cells releases every string, every row array, the grid and
    the struct, once each. *)
Lemma free_table_data_complete_grid rows n m :
  Z.of_nat (length rows) = n ->
  Forall (fun row : list Cell => Z.of_nat (length row) = m /\ Forall is_Some row) rows ->
  free_table_data (Some (mk_TableData (Some rows) n m))
  = Some (concat (map (fun row => map CString (row_strings row) ++ [RowArray]) rows)
            ++ [GridArray; TableDataStruct]).
Proof.
  intros <- Hrows. unfold free_table_data. cbn [data row_count column_count].
  rewrite Nat2Z.id, (mapM_lookup_all (fun row => free_row m row) rows).
  assert (mapM (fun row => free_row m row) rows
          = Some (map (fun row => map CString (row_strings row) ++ [RowArray]) rows)) as ->;
    [|reflexivity].
  induction Hrows as [|row rest [Hlen Hrow] _ IH]; [reflexivity|].
  cbn [mapM map]. rewrite (free_row_assigned m row Hlen Hrow).
  cbn [mbind option_bind]. rewrite IH. reflexivity.
Qed.

(** X21: free_schema_info on any result of read_parquet_schema releases
    the two strings of every column, then the column array and the struct,
    and reads no column past the end of the array. *)
Lemma free_schema_info_result disk file_path st info :
  fst (read_parquet_schema disk file_path st) = Some info ->
  free_schema_info (Some info)
  = Some (concat (map (fun c => [CString (name c); CString (type c)]) (columns info))
            ++ [ColumnInfoArray; SchemaInfoStruct]).
Proof.
  unfold read_parquet_schema.
  destruct (get_cached_reader disk file_path st) as [[reader|] st']; [|discriminate].
  destruct (arrow_schema (reader_file reader)) as [schema|]; [|discriminate].
  cbn [fst]. intros [= <-]. unfold free_schema_info.
  cbn [columns info_column_count]. rewrite Nat2Z.id.
  rewrite <- (length_map (fun f => mk_ColumnInfo (Libc.strdup_c_str (field_name f))
                                     (Libc.strdup_c_str (field_type_string f))) schema).
  rewrite (mapM_lookup_all (fun c => Some [CString (name c); CString (type c)])).
  rewrite mapM_total. reflexivity.
Qed.

Lemma free_schema_info_result_witness :
  fst (read_parquet_schema a_disk "a.parquet" initial_state)
    = Some (mk_SchemaInfo [mk_ColumnInfo "id" "int64"] 1 5) /\
  free_schema_info (Some (mk_SchemaInfo [mk_ColumnInfo "id" "int64"] 1 5))
    = Some [CString "id"; CString "int64"; ColumnInfoArray; SchemaInfoStruct].
Proof.
  split; [reflexivity|].
  exact (free_schema_info_result a_disk "a.parquet" initial_state
           (mk_SchemaInfo [mk_ColumnInfo "id" "int64"] 1 5) eq_refl).
Defined.

(* ===================================================================== *)
(** * Properties: the selection, for every file *)
(* ===================================================================== *)

Lemma metadata_ok_three_groups : metadata_ok three_groups.
Proof.
  split; [cbn; repeat constructor; apply Nat2Z.is_nonneg|split; reflexivity].
Defined.

Lemma select_row_groups_sublist sizes : forall rg current_row start_row end_row,
  select_row_groups sizes rg current_row start_row end_row
    `sublist_of` seq rg (length sizes).
Proof.
  induction sizes as [|size rest IH]; intros rg current_row start_row end_row;
    [constructor|].
  cbn [select_row_groups length seq].
  destruct ((int64 (current_row + size) >? start_row) && (current_row <? end_row));
    destruct (int64 (current_row + size) >=? end_row); cbn [app].
  - apply sublist_skip, sublist_nil_l.
  - apply sublist_skip, IH.
  - apply sublist_nil_l.
  - apply sublist_cons, IH.
Qed.

(** X1: whatever the file and the window, the row groups handed to the
    physical read are indices of row groups of the file, in increasing
    order and without repetition. *)
Theorem row_groups_to_read_increasing (f : File) (start_row end_row : Z) :
  row_groups_to_read f start_row end_row `sublist_of` seq 0 (length (row_groups f)) /\
  NoDup (row_groups_to_read f start_row end_row) /\
  (forall rg, rg ∈ row_groups_to_read f start_row end_row ->
              is_Some (row_groups f !! rg)).
Proof.
  assert (row_groups_to_read f start_row end_row
            `sublist_of` seq 0 (length (row_groups f))) as Hsub.
  { unfold row_groups_to_read.
    rewrite <- (length_map rg_num_rows (row_groups f)).
    apply select_row_groups_sublist. }
  split; [exact Hsub|]. split.
  - eapply sublist_NoDup; [|exact Hsub]. apply NoDup_seq.
  - intros rg Hin. apply lookup_lt_is_Some.
    apply (sublist_subseteq _ _ Hsub), elem_of_seq in Hin. lia.
Qed.

(** X4: no row group that lies entirely before the window or entirely
    after it is read: a group that is read starts before [end_row] and
    ends after [start_row]. *)
Theorem row_groups_to_read_overlap (f : File) (start_row end_row : Z)
    (rg : nat) (g : RowGroup) :
  metadata_ok f ->
  row_groups f !! rg = Some g ->
  rg ∈ row_groups_to_read f start_row end_row ->
  rows_before f rg < end_row /\ start_row < rows_before f rg + rg_num_rows g.
Proof.
  intros Hf Hg Hin.
  apply (row_groups_to_read_member f start_row end_row rg g Hf Hg) in Hin. lia.
Qed.

Lemma row_groups_to_read_overlap_witness :
  metadata_ok three_groups /\
  row_groups three_groups !! 1%nat = Some second_group /\
  1%nat ∈ row_groups_to_read three_groups 4 6 /\
  rows_before three_groups 1 < 6 /\
  4 < rows_before three_groups 1 + rg_num_rows second_group.
Proof.
  assert (1%nat ∈ row_groups_to_read three_groups 4 6) as Hin.
  { change (row_groups_to_read three_groups 4 6) with [1; 2]%nat. left. }
  split; [exact metadata_ok_three_groups|]. split; [reflexivity|].
  split; [exact Hin|].
  exact (row_groups_to_read_overlap three_groups 4 6 1 second_group
           metadata_ok_three_groups eq_refl Hin).
Defined.

Lemma row_groups_to_read_nonempty_group_witness :
  metadata_ok three_groups /\ 4 < 6 /\
  row_groups three_groups !! 1%nat = Some second_group /\
  0 < rg_num_rows second_group /\
  (1%nat ∈ row_groups_to_read three_groups 4 6
   <-> intersects (rows_before three_groups 1) (rg_num_rows second_group) 4 6).
Proof.
  split; [exact metadata_ok_three_groups|]. split; [lia|].
  split; [reflexivity|]. split; [reflexivity|].
  exact (row_groups_to_read_nonempty_group three_groups 4 6 1 second_group
           metadata_ok_three_groups ltac:(lia) eq_refl ltac:(reflexivity)).
Defined.

Lemma row_groups_to_read_single_group_witness :
  metadata_ok three_groups /\
  row_groups three_groups !! 1%nat = Some second_group /\
  3 < 5 /\ rows_before three_groups 1 <= 3 /\
  5 <= rows_before three_groups 1 + rg_num_rows second_group /\
  row_groups_to_read three_groups 3 5 = [1%nat].
Proof.
  assert (rows_before three_groups 1 <= 3) as Hfrom by (vm_compute; discriminate).
  assert (5 <= rows_before three_groups 1 + rg_num_rows second_group) as Hto
    by (vm_compute; discriminate).
  split; [exact metadata_ok_three_groups|]. split; [reflexivity|].
  split; [lia|]. split; [exact Hfrom|]. split; [exact Hto|].
  exact (row_groups_to_read_single_group three_groups 3 5 1 second_group
           metadata_ok_three_groups eq_refl ltac:(lia) Hfrom Hto).
Defined.

(* ===================================================================== *)
(** * Properties: the shape of a result *)
(* ===================================================================== *)

Section GridShape.
Variables (snprintf_g6 : PrimFloat.float -> string) (n m : nat).

Lemma set_cell_shape grid row_idx col value :
  grid_shape n m grid -> grid_shape n m (set_cell grid row_idx col value).
Proof.
  intros [Hn Hm]. unfold set_cell. split.
  - rewrite length_alter. exact Hn.
  - apply Forall_alter; [exact Hm|]. intros row _ Hrow.
    rewrite length_insert. exact Hrow.
Qed.

Lemma fill_chunk_shape row_count col values : forall row_idx grid,
  grid_shape n m grid ->
  grid_shape n m (snd (fill_chunk row_count col values row_idx grid)).
Proof.
  induction values as [|value rest IH]; intros row_idx grid Hg; [exact Hg|].
  cbn [fill_chunk]. destruct (row_idx <? row_count); [|exact Hg].
  apply IH, set_cell_shape, Hg.
Qed.

Lemma fill_columns_shape row_count (l : list (nat * ChunkedArray)) : forall grid,
  grid_shape n m grid ->
  grid_shape n m
    (foldl (fun g '(col, column) => fill_column snprintf_g6 row_count g col column) grid l).
Proof.
  induction l as [|[col column] rest IH]; intros grid Hg; [exact Hg|].
  cbn [foldl]. apply IH. rewrite fill_column_values. apply fill_chunk_shape, Hg.
Qed.

End GridShape.

Lemma table_to_grid_shape snprintf_g6 row_count table :
  grid_shape (Z.to_nat row_count) (Z.to_nat (table_num_columns table))
    (table_to_grid snprintf_g6 row_count table).
Proof.
  unfold table_to_grid. apply fill_columns_shape. split.
  - apply length_replicate.
  - apply Forall_replicate, length_replicate.
Qed.

Lemma ReadRowGroups_columns f indices table fields :
  arrow_schema f = Some fields ->
  ReadRowGroups f indices = Some table ->
  length (table_columns table) = length fields.
Proof.
  intros Hs. unfold ReadRowGroups. rewrite Hs. cbn [mbind option_bind].
  destruct (mapM _ indices) as [groups|]; [|discriminate].
  cbn [mbind option_bind]. intros [= <-]. cbn [table_columns]. apply length_imap.
Qed.

Lemma read_window_columns f start_row end_row row_count table fields :
  arrow_schema f = Some fields ->
  read_window f start_row end_row row_count = Some table ->
  table_num_columns table = Z.of_nat (length fields).
Proof.
  intros Hs. unfold read_window.
  destruct (if _ =? _ then _ else _) as [read|] eqn:Hread; [|discriminate].
  cbn [mbind option_bind]. intros [= <-].
  assert (length (table_columns read) = length fields) as Hlen.
  { destruct (_ =? _); eapply ReadRowGroups_columns; eassumption. }
  unfold table_num_columns.
  destruct (table_num_rows read >? row_count); [|congruence].
  cbn [table_slice table_columns]. rewrite length_map. congruence.
Qed.

(** X5: for a window that starts inside a readable file, with a positive
    [num_rows], the result is not null; its row_count is the smaller of
    [num_rows] and the rows left after [start_row], its column_count is the
    number of fields of the schema, and its data are row_count row arrays
    of column_count cells each. *)
Theorem read_rows_shape (snprintf_g6 : PrimFloat.float -> string) (f : File)
    (fields : list Field) (start_row num_rows : Z) :
  readable f ->
  arrow_schema f = Some fields ->
  in_int32 start_row -> in_int32 num_rows -> in_int32 (start_row + num_rows) ->
  0 <= start_row < Parquet.num_rows f ->
  0 < num_rows ->
  exists d rows,
    read_rows snprintf_g6 f start_row num_rows = Some d /\
    data d = Some rows /\
    row_count d = Z.min num_rows (Parquet.num_rows f - start_row) /\
    column_count d = Z.of_nat (length fields) /\
    Z.of_nat (length rows) = row_count d /\
    Forall (fun row => Z.of_nat (length row) = column_count d) rows.
Proof.
  intros Hf Hs Hstart Hnum Hsum Hin Hpos.
  destruct (read_rows_is_Some snprintf_g6 f start_row num_rows Hf) as [d Hd].
  pose proof (read_rows_row_count_inside snprintf_g6 f start_row num_rows d
                Hstart Hnum Hsum Hin Hpos Hd) as Hrc.
  rewrite Z.max_r in Hrc by lia.
  pose proof Hd as Hd'. unfold read_rows in Hd'.
  destruct (_ <=? 0) eqn:Hempty.
  - injection Hd' as <-. cbn [row_count] in Hrc. apply Z.leb_le in Hempty. lia.
  - destruct (read_window _ _ _ _) as [table|] eqn:Htable; [|discriminate Hd'].
    cbn [mbind option_bind] in Hd'. injection Hd' as <-. cbn [row_count] in Hrc.
    eexists _, _. split; [exact Hd|]. cbn [data row_count column_count].
    split; [reflexivity|]. split; [exact Hrc|].
    pose proof (read_window_columns _ _ _ _ _ _ Hs Htable) as Hcols.
    split; [exact Hcols|].
    destruct (table_to_grid_shape snprintf_g6
                (int32 (int64 (Z.min (int32 (start_row + num_rows)) (Parquet.num_rows f)
                               - start_row))) table) as [Hn Hm].
    split.
    + rewrite Hn. apply Z.leb_gt in Hempty. lia.
    + eapply Forall_impl; [exact Hm|]. intros row Hrow. cbn beta in Hrow.
      rewrite Hrow, Hcols. lia.
Qed.

(** X6: for a window that starts at or after the last row, or asks for no
    rows, the result is not null and is empty (null data, no columns); no
    row group is read, so this holds for files whose data cannot be
    decoded too, and releasing the result frees the struct alone. *)
Theorem read_rows_empty_window (snprintf_g6 : PrimFloat.float -> string) (f : File)
    (start_row num_rows : Z) :
  in_int32 start_row -> in_int32 num_rows -> in_int32 (start_row + num_rows) ->
  0 <= Parquet.num_rows f ->
  Parquet.num_rows f <= start_row \/ num_rows <= 0 ->
  read_rows snprintf_g6 f start_row num_rows
    = Some (mk_TableData None
              (Z.min (start_row + num_rows) (Parquet.num_rows f) - start_row) 0) /\
  Z.min (start_row + num_rows) (Parquet.num_rows f) - start_row <= 0 /\
  free_table_data (read_rows snprintf_g6 f start_row num_rows) = Some [TableDataStruct].
Proof.
  intros Hstart Hnum Hsum Htotal Hempty.
  assert (read_rows snprintf_g6 f start_row num_rows
          = Some (mk_TableData None
                    (Z.min (start_row + num_rows) (Parquet.num_rows f) - start_row) 0))
    as Hread.
  { unfold read_rows. rewrite (int32_small (start_row + num_rows)) by exact Hsum.
    set (end_row := Z.min (start_row + num_rows) (Parquet.num_rows f)).
    assert (int32 (int64 (end_row - start_row)) = end_row - start_row) as ->.
    { unfold in_int32 in *. change (2 ^ 31) with 2147483648 in *.
      rewrite int64_small
        by (unfold in_int64; change (2 ^ 63) with 9223372036854775808; lia).
      apply int32_small. unfold in_int32. change (2 ^ 31) with 2147483648. lia. }
    destruct (Z.leb_spec (end_row - start_row) 0); [reflexivity|lia]. }
  rewrite Hread. split; [reflexivity|]. split; [lia|reflexivity].
Qed.

Lemma read_rows_empty_window_witness :
  in_int32 10 /\ in_int32 3 /\ in_int32 (10 + 3) /\
  0 <= Parquet.num_rows corrupt_tail_file /\
  (Parquet.num_rows corrupt_tail_file <= 10 \/ 3 <= 0) /\
  read_rows no_floats corrupt_tail_file 10 3
    = Some (mk_TableData None
              (Z.min (10 + 3) (Parquet.num_rows corrupt_tail_file) - 10) 0) /\
  Z.min (10 + 3) (Parquet.num_rows corrupt_tail_file) - 10 <= 0 /\
  free_table_data (read_rows no_floats corrupt_tail_file 10 3) = Some [TableDataStruct].
Proof.
  assert (in_int32 10) as H1 by (unfold in_int32; lia).
  assert (in_int32 3) as H2 by (unfold in_int32; lia).
  assert (in_int32 (10 + 3)) as H3 by (unfold in_int32; lia).
  assert (0 <= Parquet.num_rows corrupt_tail_file) as H4 by (cbn; lia).
  assert (Parquet.num_rows corrupt_tail_file <= 10 \/ 3 <= 0) as H5 by (left; cbn; lia).
  split; [exact H1|]. split; [exact H2|]. split; [exact H3|].
  split; [exact H4|]. split; [exact H5|].
  exact (read_rows_empty_window no_floats corrupt_tail_file 10 3 H1 H2 H3 H4 H5).
Defined.

(* ===================================================================== *)
(** * Properties: when a read fails *)
(* ===================================================================== *)

Lemma readable_five_rows : readable five_rows.
Proof.
  split; [eexists; reflexivity|].
  repeat constructor; eexists; reflexivity.
Defined.

Lemma read_rows_shape_witness :
  readable five_rows /\
  arrow_schema five_rows = Some [mk_Field "id" "int64"] /\
  in_int32 1 /\ in_int32 10 /\ in_int32 (1 + 10) /\
  0 <= 1 < Parquet.num_rows five_rows /\ 0 < 10 /\
  exists d rows,
    read_rows no_floats five_rows 1 10 = Some d /\
    data d = Some rows /\
    row_count d = Z.min 10 (Parquet.num_rows five_rows - 1) /\
    column_count d = Z.of_nat (length [mk_Field "id" "int64"]) /\
    Z.of_nat (length rows) = row_count d /\
    Forall (fun row => Z.of_nat (length row) = column_count d) rows.
Proof.
  assert (in_int32 1) as H1 by (unfold in_int32; lia).
  assert (in_int32 10) as H2 by (unfold in_int32; lia).
  assert (in_int32 (1 + 10)) as H3 by (unfold in_int32; lia).
  assert (0 <= 1 < Parquet.num_rows five_rows) as H4 by (cbn; lia).
  split; [exact readable_five_rows|]. split; [reflexivity|].
  split; [exact H1|]. split; [exact H2|]. split; [exact H3|].
  split; [exact H4|]. split; [lia|].
  exact (read_rows_shape no_floats five_rows [mk_Field "id" "int64"] 1 10
           readable_five_rows eq_refl H1 H2 H3 H4 ltac:(lia)).
Defined.

Lemma sublist_full {A} (l k : list A) :
  l `sublist_of` k -> (length k <= length l)%nat -> l = k.
Proof.
  induction 1 as [|x l k Hsub IH|x l k Hsub IH]; intros Hlen; [reflexivity| |].
  - f_equal. apply IH. cbn [length] in Hlen. lia.
  - apply sublist_length in Hsub. cbn [length] in Hlen. lia.
Qed.

Lemma ReadRowGroups_is_Some_iff f indices :
  is_Some (ReadRowGroups f indices)
  <-> is_Some (arrow_schema f)
      /\ Forall (fun rg => is_Some (row_groups f !! rg ≫= rg_columns)) indices.
Proof.
  unfold ReadRowGroups. split.
  - intros [table Ht]. destruct (arrow_schema f) as [fields|]; [|discriminate Ht].
    split; [eauto|]. cbn [mbind option_bind] in Ht.
    destruct (mapM _ indices) as [groups|] eqn:Hg; [|discriminate Ht].
    apply mapM_is_Some. eauto.
  - intros [[fields ->] Hidx]. cbn [mbind option_bind].
    apply mapM_is_Some in Hidx as [groups ->]. cbn [mbind option_bind]. eauto.
Qed.

(** The table of the window is read from the selected row groups on both
    branches: when all row groups are selected, the selection is the list
    of all of them. *)
Lemma read_window_reads_selection f start_row end_row :
  (if Z.of_nat (length (row_groups_to_read f start_row end_row)) =? num_row_groups f
   then ReadTable f else ReadRowGroups f (row_groups_to_read f start_row end_row))
  = ReadRowGroups f (row_groups_to_read f start_row end_row).
Proof.
  destruct (Z.eqb_spec (Z.of_nat (length (row_groups_to_read f start_row end_row)))
              (num_row_groups f)) as [Hall|]; [|reflexivity].
  unfold ReadTable. f_equal. symmetry. apply sublist_full.
  - unfold row_groups_to_read.
    rewrite <- (length_map rg_num_rows (row_groups f)).
    apply select_row_groups_sublist.
  - rewrite length_seq. unfold num_row_groups in Hall. lia.
Qed.

(** X7: a request for a window that is not empty fails (returns null)
    exactly when the schema does not convert or one of the row groups the
    window selects cannot be decoded; a damaged row group outside the
    window does not fail it. *)
Theorem read_rows_fails_on_selected_groups_only
    (snprintf_g6 : PrimFloat.float -> string) (f : File) (start_row num_rows : Z) :
  0 < int32 (int64 (Z.min (int32 (start_row + num_rows)) (Parquet.num_rows f) - start_row)) ->
  (is_Some (read_rows snprintf_g6 f start_row num_rows)
   <-> is_Some (arrow_schema f)
       /\ forall rg g,
            rg ∈ row_groups_to_read f start_row
                   (Z.min (int32 (start_row + num_rows)) (Parquet.num_rows f)) ->
            row_groups f !! rg = Some g -> is_Some (rg_columns g)).
Proof.
  intros Hrc. unfold read_rows.
  destruct (Z.leb_spec
              (int32 (int64 (Z.min (int32 (start_row + num_rows)) (Parquet.num_rows f)
                             - start_row))) 0) as [|_]; [lia|].
  unfold read_window. rewrite read_window_reads_selection.
  set (to_read := row_groups_to_read f start_row _).
  assert (is_Some (ReadRowGroups f to_read)
          <-> is_Some (arrow_schema f)
              /\ forall rg g, rg ∈ to_read -> row_groups f !! rg = Some g ->
                              is_Some (rg_columns g)) as <-.
  { rewrite ReadRowGroups_is_Some_iff, Forall_forall.
    split; intros [Hs Hg]; (split; [exact Hs|]).
    - intros rg g Hin Hrg. specialize (Hg rg Hin). rewrite Hrg in Hg. exact Hg.
    - intros rg Hin.
      destruct (row_groups f !! rg) as [g|] eqn:Hrg; [exact (Hg rg g Hin Hrg)|].
      apply select_row_groups_bound in Hin. rewrite length_map in Hin.
      apply lookup_ge_None in Hrg. lia. }
  destruct (ReadRowGroups f to_read) as [table|]; cbn [mbind option_bind].
  - split; eauto.
  - split; intros [? [=]].
Qed.

Lemma read_rows_fails_on_selected_groups_only_witness :
  0 < int32 (int64 (Z.min (int32 (0 + 2)) (Parquet.num_rows corrupt_tail_file) - 0)) /\
  is_Some (read_rows no_floats corrupt_tail_file 0 2) /\
  ~ is_Some (read_rows no_floats corrupt_tail_file 0 3).
Proof.
  assert (0 < int32 (int64 (Z.min (int32 (0 + 2)) (Parquet.num_rows corrupt_tail_file) - 0)))
    as H2 by reflexivity.
  assert (0 < int32 (int64 (Z.min (int32 (0 + 3)) (Parquet.num_rows corrupt_tail_file) - 0)))
    as H3 by reflexivity.
  split; [exact H2|]. split.
  - apply (proj2 (read_rows_fails_on_selected_groups_only no_floats corrupt_tail_file 0 2 H2)).
    split; [eexists; reflexivity|].
    intros rg g Hin Hg.
    change (rg ∈ [0%nat]) in Hin. apply list_elem_of_singleton in Hin. subst rg.
    injection Hg as <-. eexists; reflexivity.
  - intros Hsome.
    apply (proj1 (read_rows_fails_on_selected_groups_only no_floats corrupt_tail_file 0 3 H3))
      in Hsome as [_ Hg].
    destruct (Hg 1%nat (mk_RowGroup 3 None)) as [cols Hcols];
      [right; left|reflexivity|discriminate Hcols].
Defined.

(* ===================================================================== *)
(** * Properties: the cache and the open log *)
(* ===================================================================== *)

(** X8: a query on one path leaves the cached reader of every other path
    as it is. *)
Theorem query_leaves_other_paths (snprintf_g6 : PrimFloat.float -> string)
    (disk : Disk) (file_path q : string) (start_row num_rows : Z) (st : State) :
  q <> file_path ->
  reader_cache (snd (get_cached_reader disk file_path st)) !! q = reader_cache st !! q /\
  reader_cache (snd (read_parquet_schema disk file_path st)) !! q = reader_cache st !! q /\
  reader_cache (snd (read_parquet_data snprintf_g6 disk file_path start_row num_rows st)) !! q
    = reader_cache st !! q.
Proof.
  intros Hq. rewrite read_parquet_schema_state, read_parquet_data_state.
  assert (reader_cache (snd (get_cached_reader disk file_path st)) !! q
          = reader_cache st !! q) as H; [|auto].
  unfold get_cached_reader.
  destruct (reader_cache st !! file_path); [reflexivity|].
  destruct (disk file_path); cbn [snd reader_cache]; try reflexivity.
  apply lookup_insert_ne. congruence.
Qed.

Lemma query_leaves_other_paths_witness :
  "a.parquet" <> "b.parquet" /\
  reader_cache (snd (read_parquet_schema empty_disk "b.parquet" a_cached)) !! "a.parquet"
    = Some (mk_FileReader 0 five_rows).
Proof.
  assert ("a.parquet" <> "b.parquet") as Hne by discriminate.
  split; [exact Hne|].
  exact (proj1 (proj2 (query_leaves_other_paths no_floats empty_disk "b.parquet"
                         "a.parquet" 0 0 a_cached Hne))).
Defined.

Lemma open_count_cons (p q : string) (st_calls : list string) :
  length (filter (fun x => x = p) (q :: st_calls))
  = ((if decide (q = p) then 1 else 0) + length (filter (fun x => x = p) st_calls))%nat.
Proof.
  destruct (decide (q = p)) as [Heq|Hne].
  - rewrite filter_cons_True by exact Heq. reflexivity.
  - rewrite filter_cons_False by exact Hne. reflexivity.
Qed.

Lemma get_cached_reader_opened_inv disk p st :
  cache_opened st -> cache_opened (snd (get_cached_reader disk p st)).
Proof.
  intros (Hopen & Hsize & Hnext). unfold get_cached_reader.
  destruct (reader_cache st !! p) eqn:Hp; [repeat split; assumption|].
  assert (forall q, is_Some (reader_cache st !! q) ->
                    (0 < length (filter (fun x => x = q) (p :: open_calls st)))%nat) as Hold.
  { intros q Hq. rewrite open_count_cons. specialize (Hopen q Hq).
    unfold open_count in Hopen. lia. }
  destruct (disk p) as [| | | |f]; unfold cache_opened, open_count;
    cbn [snd reader_cache open_calls next_reader_id length];
    try (split; [exact Hold|split; lia]).
  split; [|split].
  - intros q Hq. destruct (decide (p = q)) as [<-|Hne].
    + rewrite open_count_cons, decide_True by reflexivity. lia.
    + rewrite lookup_insert_ne in Hq by exact Hne. apply Hold, Hq.
  - rewrite map_size_insert_None by exact Hp. lia.
  - lia.
Qed.

Lemma run_call_opened snprintf_g6 st c :
  cache_opened st -> cache_opened (run_call snprintf_g6 st c).
Proof.
  intros Hst. destruct c as [disk p|disk p s n|p|]; cbn [run_call].
  - rewrite read_parquet_schema_state. apply get_cached_reader_opened_inv, Hst.
  - rewrite read_parquet_data_state. apply get_cached_reader_opened_inv, Hst.
  - destruct Hst as (Hopen & Hsize & Hnext).
    unfold cache_opened, open_count, clear_parquet_cache in *.
    cbn [reader_cache open_calls next_reader_id]. split; [|split; [|exact Hnext]].
    + intros q [r Hq]. apply lookup_delete_Some in Hq as [_ Hq]. apply Hopen. eauto.
    + pose proof (map_size_delete p (reader_cache st)) as Hdel.
      destruct (reader_cache st !! p); unfold id in Hdel; lia.
  - destruct Hst as (Hopen & Hsize & Hnext).
    unfold cache_opened, open_count, clear_all_parquet_cache in *.
    cbn [reader_cache open_calls next_reader_id]. split; [|split; [|exact Hnext]].
    + intros q [r Hq]. rewrite lookup_empty in Hq. discriminate Hq.
    + rewrite map_size_empty. lia.
Qed.

(** X9: in every state the process can reach, each cached path was opened
    at least once, and the cache holds no more readers than were built,
    which are no more than the calls of the open sequence. *)
Theorem reachable_cache_opened (st : State) :
  reachable st ->
  (forall p, is_Some (reader_cache st !! p) -> (0 < open_count p st)%nat) /\
  (size (reader_cache st) <= next_reader_id st)%nat /\
  (next_reader_id st <= length (open_calls st))%nat.
Proof.
  intros (snprintf_g6 & cs & ->).
  assert (cache_opened initial_state) as Hinit.
  { split; [|split; cbn; [rewrite map_size_empty|]; lia].
    intros p [r Hp]. cbn in Hp. rewrite lookup_empty in Hp. discriminate Hp. }
  revert Hinit. generalize initial_state as st. unfold run_calls.
  induction cs as [|c cs IH]; intros st Hst; cbn [foldl]; [exact Hst|].
  apply IH, run_call_opened, Hst.
Qed.

Lemma reachable_cache_opened_witness :
  reachable a_cached /\
  (forall p, is_Some (reader_cache a_cached !! p) -> (0 < open_count p a_cached)%nat) /\
  (size (reader_cache a_cached) <= next_reader_id a_cached)%nat /\
  (next_reader_id a_cached <= length (open_calls a_cached))%nat.
Proof.
  assert (reachable a_cached) as Hreach.
  { exists no_floats, [Call_read_parquet_schema a_disk "a.parquet"]. reflexivity. }
  split; [exact Hreach|]. exact (reachable_cache_opened a_cached Hreach).
Defined.

(* ===================================================================== *)
(** * Properties: queries against the cache *)
(* ===================================================================== *)

(** X10: a failed open is not remembered: each further query on the path
    calls the open sequence again.  After k schema queries on a path that
    is not cached and does not open, the cache is as before, the open
    sequence ran k more times on the path, and the next query returns null
    again. *)
Theorem failed_open_is_retried (snprintf_g6 : PrimFloat.float -> string)
    (disk : Disk) (file_path : string) (st : State) (k : nat) :
  reader_cache st !! file_path = None ->
  open_fails (disk file_path) ->
  let st' := run_calls snprintf_g6 st
               (replicate k (Call_read_parquet_schema disk file_path)) in
  reader_cache st' = reader_cache st /\
  open_count file_path st' = (k + open_count file_path st)%nat /\
  fst (read_parquet_schema disk file_path st') = None.
Proof.
  intros Hmiss Hfail. cbn zeta. revert st Hmiss.
  induction k as [|k IH]; intros st Hmiss.
  - cbn [replicate run_calls foldl]. split; [reflexivity|]. split; [reflexivity|].
    unfold read_parquet_schema.
    rewrite (get_cached_reader_open_fails disk file_path st Hmiss Hfail). reflexivity.
  - cbn [replicate]. unfold run_calls. cbn [foldl run_call].
    rewrite read_parquet_schema_state,
      (get_cached_reader_open_fails disk file_path st Hmiss Hfail).
    cbn [snd].
    destruct (IH (mk_State (reader_cache st) (file_path :: open_calls st)
                    (next_reader_id st)) Hmiss) as (Hc & Ho & Hn).
    unfold run_calls in Hc, Ho, Hn.
    split; [exact Hc|]. split; [|exact Hn].
    rewrite Ho. unfold open_count. cbn [open_calls].
    rewrite filter_cons_True by reflexivity. cbn [length]. lia.
Qed.

Lemma failed_open_is_retried_witness :
  reader_cache initial_state !! "missing.parquet" = None /\
  open_fails (empty_disk "missing.parquet") /\
  open_count "missing.parquet"
    (run_calls no_floats initial_state
       (replicate 3 (Call_read_parquet_schema empty_disk "missing.parquet")))
  = (3 + open_count "missing.parquet" initial_state)%nat.
Proof.
  split; [reflexivity|]. split; [exact I|].
  exact (proj1 (proj2 (failed_open_is_retried no_floats empty_disk "missing.parquet"
                         initial_state 3 eq_refl I))).
Defined.



(** X12: a file that opens but whose schema does not convert is cached all
    the same: read_parquet_schema returns null, the reader stays in the
    cache, and further schema queries return null without calling the open
    sequence again. *)
Theorem schema_failure_keeps_reader (disk disk' : Disk) (file_path : string)
    (st : State) (f : File) :
  reader_cache st !! file_path = None ->
  disk file_path = Opened f ->
  arrow_schema f = None ->
  let st1 := snd (read_parquet_schema disk file_path st) in
  fst (read_parquet_schema disk file_path st) = None /\
  reader_cache st1 !! file_path = Some (mk_FileReader (next_reader_id st) f) /\
  open_calls st1 = file_path :: open_calls st /\
  read_parquet_schema disk' file_path st1 = (None, st1).
Proof.
  intros Hmiss Hopen Hschema. cbn zeta.
  assert (read_parquet_schema disk file_path st
          = (None,
             mk_State (<[file_path := mk_FileReader (next_reader_id st) f]> (reader_cache st))
                      (file_path :: open_calls st) (S (next_reader_id st)))) as ->.
  { unfold read_parquet_schema.
    rewrite (get_cached_reader_opened disk file_path st f Hmiss Hopen).
    cbn [reader_file]. rewrite Hschema. reflexivity. }
  cbn [fst snd reader_cache open_calls].
  split; [reflexivity|]. split; [apply lookup_insert_eq|]. split; [reflexivity|].
  unfold read_parquet_schema.
  rewrite (get_cached_reader_hit disk' file_path _ (mk_FileReader (next_reader_id st) f))
    by apply lookup_insert_eq.
  cbn [reader_file]. rewrite Hschema. reflexivity.
Qed.

Lemma schema_failure_keeps_reader_witness :
  reader_cache initial_state !! "x.parquet" = None /\
  one_file_disk "x.parquet" no_schema_file "x.parquet" = Opened no_schema_file /\
  arrow_schema no_schema_file = None /\
  fst (read_parquet_schema (one_file_disk "x.parquet" no_schema_file) "x.parquet"
         initial_state) = None /\
  read_parquet_schema empty_disk "x.parquet"
    (snd (read_parquet_schema (one_file_disk "x.parquet" no_schema_file) "x.parquet"
            initial_state))
  = (None, snd (read_parquet_schema (one_file_disk "x.parquet" no_schema_file)
                  "x.parquet" initial_state)).
Proof.
  split; [reflexivity|]. split; [reflexivity|]. split; [reflexivity|].
  pose proof (schema_failure_keeps_reader (one_file_disk "x.parquet" no_schema_file)
                empty_disk "x.parquet" initial_state no_schema_file
                eq_refl eq_refl eq_refl) as (Hnull & _ & _ & Hagain).
  split; [exact Hnull|exact Hagain].
Defined.

(** X13: invalidations compose: clearing a path twice is clearing it once,
    clearing two paths does not depend on the order, clear_all absorbs a
    clear on either side, and no invalidation calls the open sequence or
    builds a reader. *)
Theorem clear_parquet_cache_composes (p q : string) (st : State) :
  clear_parquet_cache p (clear_parquet_cache p st) = clear_parquet_cache p st /\
  clear_parquet_cache p (clear_parquet_cache q st)
    = clear_parquet_cache q (clear_parquet_cache p st) /\
  clear_all_parquet_cache (clear_parquet_cache p st) = clear_all_parquet_cache st /\
  clear_parquet_cache p (clear_all_parquet_cache st) = clear_all_parquet_cache st /\
  open_calls (clear_parquet_cache p st) = open_calls st /\
  open_calls (clear_all_parquet_cache st) = open_calls st /\
  next_reader_id (clear_parquet_cache p st) = next_reader_id st /\
  next_reader_id (clear_all_parquet_cache st) = next_reader_id st.
Proof.
  unfold clear_parquet_cache, clear_all_parquet_cache.
  cbn [reader_cache open_calls next_reader_id].
  rewrite delete_delete_eq, (delete_delete _ p q), delete_empty.
  repeat split; reflexivity.
Qed.

(* ===================================================================== *)
(** * Properties: the text of a cell *)
(* ===================================================================== *)

Lemma strdup_c_str_nul_free s : nul_free s = true -> Libc.strdup_c_str s = s.
Proof.
  induction s as [|c rest IH]; [reflexivity|]. cbn [nul_free Libc.strdup_c_str].
  destruct (Ascii.eqb c Ascii.zero); cbn [negb andb]; [discriminate|].
  intros H. rewrite IH by exact H. reflexivity.
Qed.

Lemma strdup_c_str_at_nul s1 s2 :
  nul_free s1 = true -> Libc.strdup_c_str (s1 +:+ String Ascii.zero s2) = s1.
Proof.
  induction s1 as [|c rest IH]; [reflexivity|]. cbn [nul_free]. intros H.
  change (String c rest +:+ String Ascii.zero s2)
    with (String c (rest +:+ String Ascii.zero s2)).
  cbn [Libc.strdup_c_str].
  destruct (Ascii.eqb c Ascii.zero); cbn [negb andb] in H; [discriminate H|].
  rewrite IH by exact H. reflexivity.
Qed.

Lemma nul_free_strdup_c_str s : nul_free (Libc.strdup_c_str s) = true.
Proof.
  induction s as [|c rest IH]; [reflexivity|]. cbn [Libc.strdup_c_str].
  destruct (Ascii.eqb c Ascii.zero) eqn:Hc; [reflexivity|].
  cbn [nul_free]. rewrite Hc, IH. reflexivity.
Qed.

(** X14: a STRING value is stored without escaping, up to its first NUL
    byte: a value without NUL bytes is stored as it is, a value with one
    loses that byte and what follows; no stored cell holds a NUL byte. *)
Theorem string_cell_ends_at_nul (snprintf_g6 : PrimFloat.float -> string)
    (vals : list (option string)) (s1 s2 : string) :
  nul_free s1 = true ->
  Libc.strdup_c_str (stringify snprintf_g6 (mk_Array STRING vals) (Some s1)) = s1 /\
  Libc.strdup_c_str
    (stringify snprintf_g6 (mk_Array STRING vals) (Some (s1 +:+ String Ascii.zero s2)))
    = s1 /\
  forall chunk slot,
    nul_free (Libc.strdup_c_str (stringify snprintf_g6 chunk slot)) = true.
Proof.
  intros H. cbn [stringify stringify_value array_type].
  split; [apply strdup_c_str_nul_free, H|].
  split; [apply strdup_c_str_at_nul, H|].
  intros chunk slot. apply nul_free_strdup_c_str.
Qed.

Lemma string_cell_ends_at_nul_witness :
  nul_free "ab" = true /\
  Libc.strdup_c_str (stringify no_floats (mk_Array STRING []) (Some "ab")) = "ab" /\
  Libc.strdup_c_str
    (stringify no_floats (mk_Array STRING []) (Some ("ab" +:+ String Ascii.zero "cd")))
    = "ab".
Proof.
  split; [reflexivity|].
  pose proof (string_cell_ends_at_nul no_floats [] "ab" "cd" eq_refl) as (H1 & H2 & _).
  split; [exact H1|exact H2].
Defined.

Lemma pretty_N_char_nul_free d :
  Ascii.eqb (pretty_N_char d) Ascii.zero = false.
Proof.
  unfold pretty_N_char.
  repeat match goal with
         | |- context [match ?x with _ => _ end] => destruct x
         end; reflexivity.
Qed.

Lemma pretty_N_go_nul_free x : forall s,
  nul_free s = true -> nul_free (pretty_N_go x s) = true.
Proof.
  induction x as [x IH] using (well_founded_induction N.lt_wf_0). intros s Hs.
  destruct (decide (0 < x)%N) as [Hx|Hx].
  - rewrite pretty_N_go_step by exact Hx. apply IH.
    + apply N.div_lt; lia.
    + cbn [nul_free]. rewrite pretty_N_char_nul_free, Hs. reflexivity.
  - assert (x = 0%N) as -> by lia. rewrite pretty_N_go_0. exact Hs.
Qed.

Lemma pretty_Z_nul_free (v : Z) : nul_free (pretty v) = true.
Proof.
  assert (forall p : positive, nul_free (pretty p) = true) as Hpos.
  { intros p. unfold pretty, pretty_positive, pretty, pretty_N.
    destruct (decide (N.pos p = 0%N)); [reflexivity|].
    apply pretty_N_go_nul_free. reflexivity. }
  destruct v as [|p|p]; unfold pretty, pretty_Z; [reflexivity|apply Hpos|].
  change ("-" +:+ pretty p) with (String "-"%char (pretty p)).
  cbn [nul_free]. rewrite Hpos. reflexivity.
Qed.

(** X15: an INT64 or INT32 value is stored as its decimal text, and the
    text determines the value: two cells with equal text hold equal
    values. *)
Theorem int_cells_are_lossless (snprintf_g6 : PrimFloat.float -> string)
    (vals1 vals2 : list (option Z)) (v1 v2 : Z) :
  (Libc.strdup_c_str (stringify snprintf_g6 (mk_Array INT64 vals1) (Some v1))
   = Libc.strdup_c_str (stringify snprintf_g6 (mk_Array INT64 vals2) (Some v2))
   -> v1 = v2) /\
  (Libc.strdup_c_str (stringify snprintf_g6 (mk_Array INT32 vals1) (Some v1))
   = Libc.strdup_c_str (stringify snprintf_g6 (mk_Array INT32 vals2) (Some v2))
   -> v1 = v2) /\
  Libc.strdup_c_str (stringify snprintf_g6 (mk_Array INT64 vals1) (Some v1)) = pretty v1 /\
  Libc.strdup_c_str (stringify snprintf_g6 (mk_Array INT32 vals1) (Some v1)) = pretty v1.
Proof.
  cbn [stringify stringify_value array_type]. unfold Libc.to_string.
  rewrite !strdup_c_str_nul_free by apply pretty_Z_nul_free.
  repeat split; try reflexivity; apply pretty_Z_inj.
Qed.

(** X16: for a day count from -24855 to 24855 (1901-12-14 to 2038-01-19)
    the DATE32 case renders the calendar date of that day. *)
Theorem date32_exact_in_range (snprintf_g6 : PrimFloat.float -> string) (days : Z) :
  -24855 <= days <= 24855 ->
  stringify_value snprintf_g6 DATE32 days
  = (let '(y, m, d) := Libc.civil_from_days days in
     pretty y +:+ "-" +:+ Libc.pad2 m +:+ "-" +:+ Libc.pad2 d).
Proof.
  intros Hd. cbn [stringify_value]. cbv zeta.
  rewrite date32_product_fits by exact Hd.
  unfold Libc.gmtime. rewrite Z.div_mul by lia.
  destruct (Libc.civil_from_days days) as [[y m] d].
  unfold Libc.strftime_Ymd. cbn [Libc.tm_year Libc.tm_mon Libc.tm_mday].
  replace (y - 1900 + 1900) with y by lia. replace (m - 1 + 1) with m by lia.
  reflexivity.
Qed.

Lemma date32_exact_in_range_witness :
  -24855 <= 19000 <= 24855 /\
  stringify_value no_floats DATE32 19000 = "2022-01-08".
Proof.
  assert (-24855 <= 19000 <= 24855) as H by lia.
  split; [exact H|].
  exact (date32_exact_in_range no_floats 19000 H).
Defined.

(** X17: the TIMESTAMP case divides by 1000000 with rounding toward zero,
    so every instant less than a second away from the epoch, before it as
    well as after, is rendered as the epoch. *)
Theorem timestamp_rounds_toward_epoch (snprintf_g6 : PrimFloat.float -> string)
    (timestamp : Z) :
  -1000000 < timestamp < 1000000 ->
  stringify_value snprintf_g6 TIMESTAMP timestamp = "1970-01-01 00:00:00".
Proof.
  intros Ht. cbn [stringify_value]. cbv zeta.
  assert (timestamp `quot` 1000000 = 0) as ->; [|reflexivity].
  destruct (Z.le_gt_cases 0 timestamp) as [Hpos|Hneg].
  - apply Z.quot_small. lia.
  - rewrite <- (Z.opp_involutive timestamp), Z.quot_opp_l by lia.
    rewrite Z.quot_small by lia. reflexivity.
Qed.

Lemma timestamp_rounds_toward_epoch_witness :
  -1000000 < -1 < 1000000 /\
  stringify_value no_floats TIMESTAMP (-1) = "1970-01-01 00:00:00".
Proof.
  assert (-1000000 < -1 < 1000000) as H by lia.
  split; [exact H|]. exact (timestamp_rounds_toward_epoch no_floats (-1) H).
Defined.

(** X18: for a millisecond count that is not negative the DATE64 case
    renders the calendar date of the day the instant falls on. *)
Theorem date64_exact_after_epoch (snprintf_g6 : PrimFloat.float -> string) (millis : Z) :
  0 <= millis ->
  stringify_value snprintf_g6 DATE64 millis
  = (let '(y, m, d) := Libc.civil_from_days (millis / 86400000) in
     pretty y +:+ "-" +:+ Libc.pad2 m +:+ "-" +:+ Libc.pad2 d).
Proof.
  intros Hm. cbn [stringify_value]. cbv zeta.
  rewrite Z.quot_div_nonneg by lia.
  unfold Libc.gmtime. rewrite Z.div_div by lia. change (1000 * 86400) with 86400000.
  destruct (Libc.civil_from_days (millis / 86400000)) as [[y m] d].
  unfold Libc.strftime_Ymd. cbn [Libc.tm_year Libc.tm_mon Libc.tm_mday].
  replace (y - 1900 + 1900) with y by lia. replace (m - 1 + 1) with m by lia.
  reflexivity.
Qed.

Lemma date64_exact_after_epoch_witness :
  0 <= 1700000000000 /\
  stringify_value no_floats DATE64 1700000000000 = "2023-11-14".
Proof.
  assert (0 <= 1700000000000) as H by lia.
  split; [exact H|]. exact (date64_exact_after_epoch no_floats 1700000000000 H).
Defined.

(* ===================================================================== *)
(** * Properties: slices and the grid *)
(* ===================================================================== *)

Section SliceValues.
Variable snprintf_g6 : PrimFloat.float -> string.

Lemma chunk_values_length chunk :
  length (chunk_values snprintf_g6 chunk) = length (slots chunk).
Proof. unfold chunk_values. apply length_map. Qed.

Lemma chunk_values_slice offset len chunk :
  chunk_values snprintf_g6 (array_slice offset len chunk)
  = take (Z.to_nat len) (drop (Z.to_nat offset) (chunk_values snprintf_g6 chunk)).
Proof.
  destruct chunk as [t sl]. unfold chunk_values, array_slice. cbn [slots array_type].
  change (stringify snprintf_g6 {| array_type := t;
            slots := take (Z.to_nat len) (drop (Z.to_nat offset) sl) |})
    with (stringify snprintf_g6 {| array_type := t; slots := sl |}).
  rewrite <- firstn_map, <- skipn_map. reflexivity.
Qed.

(** The values of a sliced column are the slice of its values. *)
Lemma column_values_slice column : forall offset len,
  0 <= offset ->
  column_values snprintf_g6 (chunked_slice offset len column)
  = take (Z.to_nat len) (drop (Z.to_nat offset) (column_values snprintf_g6 column)).
Proof.
  induction column as [|chunk rest IH]; intros offset len Hoff.
  - cbn [chunked_slice]. unfold column_values. cbn [map concat].
    rewrite drop_nil, take_nil. reflexivity.
  - cbn [chunked_slice].
    change (column_values snprintf_g6 (chunk :: rest))
      with (chunk_values snprintf_g6 chunk ++ column_values snprintf_g6 rest).
    pose proof (chunk_values_length chunk) as Hlen.
    unfold array_length.
    destruct (Z.leb_spec (Z.of_nat (length (slots chunk))) offset) as [Hskip|Hin].
    + rewrite IH by lia. rewrite drop_app_ge by lia. do 2 f_equal. lia.
    + destruct (Z.leb_spec len 0) as [Hnone|Hsome].
      * replace (Z.to_nat len) with 0%nat by lia. reflexivity.
      * change (column_values snprintf_g6 (array_slice offset len chunk :: ?r))
          with (chunk_values snprintf_g6 (array_slice offset len chunk)
                ++ column_values snprintf_g6 r).
        rewrite chunk_values_slice, IH by lia.
        rewrite drop_app_le by lia. rewrite take_app, drop_0, length_drop.
        do 2 f_equal. lia.
Qed.

Lemma fill_chunk_take row_count col values : forall row_idx grid,
  fill_chunk row_count col (take (Z.to_nat (row_count - row_idx)) values) row_idx grid
  = fill_chunk row_count col values row_idx grid.
Proof.
  induction values as [|value rest IH]; intros row_idx grid.
  - rewrite take_nil. reflexivity.
  - destruct (Z.ltb_spec row_idx row_count) as [Hlt|Hge].
    + replace (Z.to_nat (row_count - row_idx))
        with (S (Z.to_nat (row_count - (row_idx + 1)))) by lia.
      cbn [take fill_chunk].
      destruct (Z.ltb_spec row_idx row_count); [|lia]. apply IH.
    + replace (Z.to_nat (row_count - row_idx)) with 0%nat by lia.
      cbn [take fill_chunk]. destruct (Z.ltb_spec row_idx row_count); [lia|reflexivity].
Qed.

(** The grid depends on a column through its first [row_count] values. *)
Lemma fill_column_ext row_count grid col column1 column2 :
  take (Z.to_nat row_count) (column_values snprintf_g6 column1)
  = take (Z.to_nat row_count) (column_values snprintf_g6 column2) ->
  fill_column snprintf_g6 row_count grid col column1
  = fill_column snprintf_g6 row_count grid col column2.
Proof.
  intros Heq. rewrite !fill_column_values.
  rewrite <- (fill_chunk_take row_count col (column_values snprintf_g6 column1)),
          <- (fill_chunk_take row_count col (column_values snprintf_g6 column2)).
  rewrite Z.sub_0_r, Heq. reflexivity.
Qed.

Lemma fill_columns_ext row_count (columns1 columns2 : list ChunkedArray) :
  Forall2 (fun column1 column2 =>
             take (Z.to_nat row_count) (column_values snprintf_g6 column1)
             = take (Z.to_nat row_count) (column_values snprintf_g6 column2))
          columns1 columns2 ->
  forall (k : nat) grid,
    foldl (fun g '(col, column) => fill_column snprintf_g6 row_count g col column)
          grid (imap (fun col column => ((k + col)%nat, column)) columns1)
    = foldl (fun g '(col, column) => fill_column snprintf_g6 row_count g col column)
            grid (imap (fun col column => ((k + col)%nat, column)) columns2).
Proof.
  induction 1 as [|column1 column2 rest1 rest2 Heq _ IH]; intros k grid; [reflexivity|].
  rewrite !imap_cons. cbn [foldl].
  rewrite (fill_column_ext row_count grid (k + 0) column1 column2 Heq).
  rewrite (imap_ext _ (fun col column => ((S k + col)%nat, column)) rest1)
    by (intros; cbn; f_equal; lia).
  rewrite (imap_ext _ (fun col column => ((S k + col)%nat, column)) rest2)
    by (intros; cbn; f_equal; lia).
  apply IH.
Qed.

Lemma table_to_grid_ext row_count table1 table2 :
  Forall2 (fun column1 column2 =>
             take (Z.to_nat row_count) (column_values snprintf_g6 column1)
             = take (Z.to_nat row_count) (column_values snprintf_g6 column2))
          (table_columns table1) (table_columns table2) ->
  table_to_grid snprintf_g6 row_count table1 = table_to_grid snprintf_g6 row_count table2.
Proof.
  intros Hcols. unfold table_to_grid, table_num_columns.
  rewrite (Forall2_length _ _ _ Hcols).
  apply (fill_columns_ext row_count _ _ Hcols 0).
Qed.

End SliceValues.

(* ===================================================================== *)
(** * Properties: reading a prefix of the row groups *)
(* ===================================================================== *)

Section ReadPrefix.
Variable snprintf_g6 : PrimFloat.float -> string.

Lemma column_values_omap c (groups : list (list Array)) :
  column_values snprintf_g6 (omap (fun cols : list Array => cols !! c) groups)
  = group_values snprintf_g6 c groups.
Proof.
  unfold column_values, group_values.
  induction groups as [|cols rest IH]; [reflexivity|].
  cbn [omap list_omap map concat]. destruct (cols !! c) as [a|]; cbn [from_option].
  - cbn [map concat]. rewrite IH. reflexivity.
  - exact IH.
Qed.

Lemma group_values_app c (groups1 groups2 : list (list Array)) :
  group_values snprintf_g6 c (groups1 ++ groups2)
  = group_values snprintf_g6 c groups1 ++ group_values snprintf_g6 c groups2.
Proof. unfold group_values. rewrite map_app, concat_app. reflexivity. Qed.

Lemma chunked_length_values column :
  chunked_length column = Z.of_nat (length (column_values snprintf_g6 column)).
Proof.
  unfold chunked_length, column_values.
  induction column as [|chunk rest IH]; [reflexivity|].
  cbn [foldr map concat]. rewrite length_app, IH, chunk_values_length.
  unfold array_length. lia.
Qed.

Lemma data_ok_groups f fields :
  data_ok f fields ->
  exists groups, Forall2 (group_ok fields) (row_groups f) groups.
Proof.
  intros [_ Hgroups]. induction Hgroups as [|g rest [cols Hg] _ [groups IH]].
  - exists []. constructor.
  - exists (cols :: groups). constructor; assumption.
Qed.

Lemma group_values_length fields c (gs : list RowGroup) (groups : list (list Array)) :
  (c < length fields)%nat ->
  Forall2 (group_ok fields) gs groups ->
  forall m,
    Z.of_nat (length (group_values snprintf_g6 c (take m groups)))
    = sum_rows (take m (map rg_num_rows gs)).
Proof.
  intros Hc. induction 1 as [|g cols gs groups (Hcols & Hlen & Hrows) _ IH]; intros m.
  - cbn [map]. rewrite !take_nil. reflexivity.
  - destruct m as [|m]; [reflexivity|]. cbn [map take].
    change (group_values snprintf_g6 c (cols :: take m groups))
      with (from_option (chunk_values snprintf_g6) [] (cols !! c)
            ++ group_values snprintf_g6 c (take m groups)).
    change (sum_rows (rg_num_rows g :: take m (map rg_num_rows gs)))
      with (rg_num_rows g + sum_rows (take m (map rg_num_rows gs))).
    rewrite length_app, Nat2Z.inj_add, IH.
    destruct (lookup_lt_is_Some_2 cols c ltac:(lia)) as [a Ha]. rewrite Ha.
    cbn [from_option]. rewrite chunk_values_length.
    rewrite Forall_forall in Hrows. specialize (Hrows a (list_elem_of_lookup_2 _ _ _ Ha)).
    unfold array_length in Hrows. lia.
Qed.

Lemma mapM_groups_prefix f fields groups m :
  Forall2 (group_ok fields) (row_groups f) groups ->
  (m <= length (row_groups f))%nat ->
  mapM (fun rg => row_groups f !! rg ≫= rg_columns) (seq 0 m) = Some (take m groups).
Proof.
  intros Hgroups Hm. apply mapM_Some, Forall2_same_length_lookup.
  pose proof (Forall2_length _ _ _ Hgroups) as Hlen.
  split; [rewrite length_seq, length_take; lia|].
  intros i rg cols Hrg Hcols.
  apply lookup_seq in Hrg as [-> Hi]. cbn [Nat.add].
  rewrite lookup_take_lt in Hcols by exact Hi.
  destruct (Forall2_lookup_r _ _ _ _ _ Hgroups Hcols) as (g & Hg & Hok & _).
  rewrite Hg. exact Hok.
Qed.

(** Reading the first [m] row groups of a well-formed file. *)
Lemma ReadRowGroups_prefix f fields groups m :
  arrow_schema f = Some fields ->
  Forall2 (group_ok fields) (row_groups f) groups ->
  (m <= length (row_groups f))%nat ->
  exists table,
    ReadRowGroups f (seq 0 m) = Some table /\
    table_columns table
      = imap (fun c _ => omap (fun cols : list Array => cols !! c) (take m groups)) fields /\
    (fields <> [] -> table_num_rows table = rows_before f m).
Proof.
  intros Hs Hgroups Hm. unfold ReadRowGroups.
  rewrite Hs, (mapM_groups_prefix f fields groups m Hgroups Hm).
  cbn [mbind option_bind]. eexists. split; [reflexivity|].
  cbn [table_columns table_num_rows]. split; [reflexivity|].
  intros Hfields. destruct fields as [|field rest]; [contradiction|].
  rewrite imap_cons.
  rewrite chunked_length_values, column_values_omap.
  apply (group_values_length (field :: rest) 0 (row_groups f) groups); [cbn; lia|exact Hgroups].
Qed.

End ReadPrefix.

Section SelectPrefix.
Variables start_row end_row : Z.

(** From a group that the window reaches, the selection takes consecutive
    groups until the running total covers [end_row]. *)
Lemma select_row_groups_prefix sizes : forall rg current_row size rest,
  sizes = size :: rest ->
  Forall (fun size => 0 <= size) sizes ->
  - 2 ^ 63 <= current_row ->
  current_row + sum_rows sizes < 2 ^ 63 ->
  start_row < current_row + size ->
  current_row < end_row ->
  exists m,
    (1 <= m <= length sizes)%nat /\
    select_row_groups sizes rg current_row start_row end_row = seq rg m /\
    (end_row <= current_row + sum_rows (take m sizes) \/ m = length sizes).
Proof.
  induction sizes as [|size0 rest0 IH];
    intros rg current_row size rest Heq Hpos Hlo Hhi Hstart Hend; [discriminate Heq|].
  injection Heq as -> ->.
  apply Forall_cons in Hpos as [Hsize Hrest].
  pose proof (sum_rows_nonneg rest Hrest) as Hrest0.
  change (sum_rows (size :: rest)) with (size + sum_rows rest) in Hhi.
  cbn [select_row_groups].
  rewrite int64_small by (unfold in_int64; lia).
  destruct (Z.gtb_spec (current_row + size) start_row); [|lia].
  destruct (Z.ltb_spec current_row end_row); [|lia]. cbn [andb].
  destruct (Z.geb_spec (current_row + size) end_row) as [Hbreak|Hgo].
  - exists 1%nat. cbn [length take seq]. split; [lia|]. split; [reflexivity|].
    left. rewrite take_0. change (sum_rows [size]) with (size + 0). lia.
  - destruct rest as [|size1 rest1].
    + exists 1%nat. cbn [length select_row_groups app seq]. split; [lia|].
      split; [reflexivity|]. right. reflexivity.
    + apply Forall_cons in Hrest as [Hsize1 Hrest1].
      destruct (IH (S rg) (current_row + size) size1 rest1 eq_refl) as (m & Hm & Hsel & Hcov);
        [constructor; assumption|lia|lia|lia|lia|].
      exists (S m). cbn [length] in Hm |- *. split; [lia|]. split.
      * rewrite Hsel. reflexivity.
      * destruct Hcov as [Hcov|Hall]; [left|right; cbn [length] in Hall; lia].
        cbn [take].
        change (sum_rows (size :: take m (size1 :: rest1)))
          with (size + sum_rows (take m (size1 :: rest1))).
        lia.
Qed.

End SelectPrefix.

(* ===================================================================== *)
(** * Properties: a window that starts in the first row group *)
(* ===================================================================== *)

Section FirstGroup.
Variable snprintf_g6 : PrimFloat.float -> string.
Variables (f : File) (fields : list Field) (start_row num_rows : Z).

Hypothesis Hmeta : metadata_ok f.
Hypothesis Hdata : data_ok f fields.
Hypothesis Hstart : in_int32 start_row.
Hypothesis Hnum : in_int32 num_rows.
Hypothesis Hsum : in_int32 (start_row + num_rows).
Hypothesis Hfrom : 0 <= start_row.
Hypothesis Hpos : 0 < num_rows.
Hypothesis Hfirst : start_row < RowGroup_num_rows f 0.

Variables end_row row_count : Z.
Hypothesis Hend_row : end_row = Z.min (start_row + num_rows) (Parquet.num_rows f).
Hypothesis Hrow_count : row_count = end_row - start_row.

Lemma first_group_sizes :
  exists size rest,
    map rg_num_rows (row_groups f) = size :: rest /\
    RowGroup_num_rows f 0 = size /\ 0 <= size /\
    size <= Parquet.num_rows f.
Proof.
  destruct Hmeta as (Hsizes & Htotal & _).
  unfold RowGroup_num_rows in *.
  destruct (row_groups f) as [|g rest] eqn:Hg; cbn [lookup list_lookup from_option] in *;
    [lia|].
  exists (rg_num_rows g), (map rg_num_rows rest). cbn [map] in *.
  apply Forall_cons in Hsizes as [Hsize Hrest].
  pose proof (sum_rows_nonneg _ Hrest) as Hnn.
  change (sum_rows (rg_num_rows g :: map rg_num_rows rest))
    with (rg_num_rows g + sum_rows (map rg_num_rows rest)) in Htotal.
  repeat split; try reflexivity; lia.
Qed.

Lemma first_group_row_count :
  Z.min (int32 (start_row + num_rows)) (Parquet.num_rows f) = end_row /\
  int32 (int64 (end_row - start_row)) = row_count /\
  0 < row_count /\ end_row <= Parquet.num_rows f.
Proof.
  destruct first_group_sizes as (size & rest & _ & Hsize0 & Hsize & Hle).
  destruct Hmeta as (_ & _ & Hmax).
  rewrite (int32_small (start_row + num_rows)) by exact Hsum.
  split; [symmetry; exact Hend_row|].
  unfold in_int32 in *. change (2 ^ 31) with 2147483648 in *.
  change (2 ^ 63) with 9223372036854775808 in *.
  split; [|lia].
  rewrite Hrow_count.
  rewrite int64_small by (unfold in_int64; change (2 ^ 63) with 9223372036854775808; lia).
  apply int32_small. unfold in_int32. change (2 ^ 31) with 2147483648. lia.
Qed.

Lemma first_group_selection :
  exists m,
    (1 <= m <= length (row_groups f))%nat /\
    row_groups_to_read f start_row end_row = seq 0 m /\
    end_row <= rows_before f m.
Proof.
  destruct first_group_sizes as (size & rest & Hsizes & Hsize0 & Hsize & Hle).
  destruct first_group_row_count as (_ & _ & Hrc & Hend).
  destruct Hmeta as (Hnonneg & Htotal & Hmax).
  destruct (select_row_groups_prefix start_row end_row (map rg_num_rows (row_groups f))
              0 0 size rest Hsizes Hnonneg) as (m & Hm & Hsel & Hcov);
    [lia|rewrite <- Htotal; lia|lia|lia|].
  rewrite length_map in Hm. exists m. split; [exact Hm|]. split; [exact Hsel|].
  unfold rows_before. destruct Hcov as [Hcov|Hall]; [lia|].
  rewrite Hall, firstn_all. rewrite <- Htotal. exact Hend.
Qed.

Lemma first_group_read :
  exists whole,
    ReadTable f = Some whole /\
    length (table_columns whole) = length fields /\
    Forall (fun column => length (column_values snprintf_g6 column) = Z.to_nat row_count)
           (table_columns (table_slice start_row row_count whole)) /\
    read_rows snprintf_g6 f start_row num_rows
    = Some (mk_TableData
              (Some (table_to_grid snprintf_g6 row_count
                       (table_slice start_row row_count whole)))
              row_count (Z.of_nat (length fields))).
Proof.
  destruct first_group_row_count as (Hend & Hrc & Hrows & Hle).
  destruct first_group_selection as (m & Hm & Hsel & Hcover).
  destruct first_group_sizes as (size & rest & Hsizes & Hsize0 & Hsize & Hsize_le).
  destruct (data_ok_groups f fields Hdata) as [groups Hgroups].
  pose proof Hdata as [Hschema _].
  pose proof Hmeta as (Hnonneg & Htotal & Hmax).
  pose proof (Forall2_length _ _ _ Hgroups) as Hlen.
  destruct (ReadRowGroups_prefix snprintf_g6 f fields groups m Hschema Hgroups (proj2 Hm))
    as (part & Hpart & Hpart_cols & Hpart_rows).
  destruct (ReadRowGroups_prefix snprintf_g6 f fields groups (length (row_groups f))
              Hschema Hgroups (le_n _)) as (whole & Hwhole & Hwhole_cols & _).
  rewrite Hlen, firstn_all in Hwhole_cols.
  (* the values of a column of the part read and of the whole file *)
  assert (forall c, (c < length fields)%nat ->
            exists tail,
              group_values snprintf_g6 c groups
                = group_values snprintf_g6 c (take m groups) ++ tail /\
              Z.of_nat (length (group_values snprintf_g6 c (take m groups)))
                = rows_before f m /\
              Z.of_nat (length (group_values snprintf_g6 c groups)) = Parquet.num_rows f)
    as Hvalues.
  { intros c Hc. exists (group_values snprintf_g6 c (drop m groups)).
    rewrite <- group_values_app, take_drop. split; [reflexivity|].
    split; [apply (group_values_length snprintf_g6 fields c _ _ Hc Hgroups m)|].
    pose proof (group_values_length snprintf_g6 fields c _ _ Hc Hgroups
                  (length (row_groups f))) as Hall.
    rewrite Hlen, firstn_all in Hall. rewrite Hall, Htotal.
    f_equal. apply take_ge. rewrite length_map. lia. }
  exists whole. split; [exact Hwhole|].
  split; [rewrite Hwhole_cols; apply length_imap|].
  split.
  { cbn [table_slice table_columns]. rewrite Hwhole_cols.
    apply Forall_forall. intros column Hin.
    apply list_elem_of_fmap in Hin as (column0 & -> & Hin).
    apply list_elem_of_lookup in Hin as [c Hc].
    rewrite list_lookup_imap in Hc.
    destruct (fields !! c) as [field|] eqn:Hfield; [|discriminate Hc].
    injection Hc as <-.
    destruct (Hvalues c (lookup_lt_Some _ _ _ Hfield)) as (tail & _ & _ & Hall).
    rewrite column_values_slice, column_values_omap by exact Hfrom.
    rewrite length_take, length_drop. lia. }
  unfold read_rows. rewrite Hend, Hrc.
  destruct (Z.leb_spec row_count 0) as [|_]; [lia|].
  unfold read_window. rewrite read_window_reads_selection, Hsel, Hpart.
  cbn [mbind option_bind]. f_equal.
  assert (offset_in_table f (seq 0 m) 0 start_row = start_row) as Hoffset.
  { destruct m as [|m]; [lia|]. cbn [seq].
    assert (rows_before f 0 = 0) as Hzero by (unfold rows_before; rewrite take_0; reflexivity).
    rewrite (offset_in_table_first_group f 0 (seq 1 m) start_row);
      [lia|exact Hzero| | |exact Hfirst].
    - unfold in_int64. rewrite Hsize0. lia.
    - unfold in_int64, in_int32 in *. change (2 ^ 31) with 2147483648 in *.
      change (2 ^ 63) with 9223372036854775808. lia. }
  rewrite Hoffset.
  assert (Forall2 (fun column1 column2 =>
                     take (Z.to_nat row_count) (column_values snprintf_g6 column1)
                     = take (Z.to_nat row_count) (column_values snprintf_g6 column2))
            (table_columns (if table_num_rows part >? row_count
                            then table_slice start_row row_count part else part))
            (table_columns (table_slice start_row row_count whole))) as Hcols.
  { apply Forall2_same_length_lookup. split.
    { cbn [table_slice table_columns]. rewrite length_map, Hwhole_cols, length_imap.
      destruct (_ >? _); cbn [table_slice table_columns];
        rewrite ?length_map, Hpart_cols, length_imap; reflexivity. }
    intros c column1 column2 H1 H2.
    cbn [table_slice table_columns] in H2. rewrite Hwhole_cols in H2.
    rewrite list_lookup_fmap, list_lookup_imap in H2.
    destruct (fields !! c) as [field|] eqn:Hfield; [|discriminate H2].
    injection H2 as <-.
    pose proof (lookup_lt_Some _ _ _ Hfield) as Hc.
    destruct (Hvalues c Hc) as (tail & Hsplit & Hpart_len & _).
    rewrite column_values_slice, column_values_omap by exact Hfrom.
    rewrite Hsplit.
    assert (fields <> []) as Hfields by (intros ->; discriminate Hfield).
    specialize (Hpart_rows Hfields).
    destruct (Z.gtb_spec (table_num_rows part) row_count) as [Hslice|Hwhole_part].
    - cbn [table_slice table_columns] in H1. rewrite Hpart_cols in H1.
      rewrite list_lookup_fmap, list_lookup_imap, Hfield in H1. injection H1 as <-.
      rewrite column_values_slice, column_values_omap by exact Hfrom.
      rewrite drop_app_le by lia.
      rewrite (take_app_le (drop _ _)); [reflexivity|].
      rewrite length_drop. lia.
    - rewrite Hpart_cols, list_lookup_imap, Hfield in H1. injection H1 as <-.
      rewrite column_values_omap.
      assert (start_row = 0) as Hzero by lia.
      rewrite Hzero. change (Z.to_nat 0) with 0%nat. rewrite drop_0, take_idemp.
      rewrite take_app_le; [reflexivity|]. lia. }
  rewrite (table_to_grid_ext snprintf_g6 row_count _ _ Hcols).
  f_equal. unfold table_num_columns.
  rewrite (Forall2_length _ _ _ Hcols). cbn [table_slice table_columns].
  rewrite length_map, Hwhole_cols, length_imap. reflexivity.
Qed.

End FirstGroup.

Lemma data_ok_three_groups : data_ok three_groups [mk_Field "id" "int64"].
Proof.
  split; [reflexivity|].
  repeat (apply List.Forall_cons;
          [eexists; split; [reflexivity|split; [reflexivity|repeat constructor]]|]).
  apply List.Forall_nil.
Defined.

(** X19: a window that starts in the first row group of a well-formed file
    is returned exactly: the grid of the result is the one obtained by
    reading the whole file and slicing it at [start_row], with the clamped
    row count and one column per field. *)
Theorem window_from_first_group_is_exact (snprintf_g6 : PrimFloat.float -> string)
    (f : File) (fields : list Field) (start_row num_rows : Z) :
  metadata_ok f -> data_ok f fields ->
  in_int32 (start_row + num_rows) ->
  0 <= start_row -> 0 < num_rows ->
  start_row < RowGroup_num_rows f 0 ->
  exists d grid,
    read_rows snprintf_g6 f start_row num_rows = Some d /\
    data d = Some grid /\
    row_count d = Z.min (start_row + num_rows) (Parquet.num_rows f) - start_row /\
    column_count d = Z.of_nat (length fields) /\
    whole_file_window snprintf_g6 f start_row (row_count d) = Some grid.
Proof.
  intros Hmeta Hdata Hsum Hfrom Hpos Hfirst.
  assert (in_int32 start_row) as Hstart.
  { unfold in_int32 in *. change (2 ^ 31) with 2147483648 in *. lia. }
  destruct (first_group_read snprintf_g6 f fields start_row num_rows
              Hmeta Hdata Hstart Hsum Hfrom Hpos Hfirst _ _ eq_refl eq_refl)
    as (whole & Hwhole & _ & _ & Hread).
  cbv zeta in Hread. eexists _, _. split; [exact Hread|].
  cbn [data row_count column_count]. split; [reflexivity|].
  split; [reflexivity|]. split; [reflexivity|].
  unfold whole_file_window. rewrite Hwhole. reflexivity.
Qed.

Lemma window_from_first_group_is_exact_witness :
  metadata_ok three_groups /\ data_ok three_groups [mk_Field "id" "int64"] /\
  in_int32 (1 + 4) /\ 0 <= 1 /\ 0 < 4 /\
  1 < RowGroup_num_rows three_groups 0 /\
  exists d grid,
    read_rows no_floats three_groups 1 4 = Some d /\
    data d = Some grid /\
    row_count d = Z.min (1 + 4) (Parquet.num_rows three_groups) - 1 /\
    column_count d = Z.of_nat (length [mk_Field "id" "int64"]) /\
    whole_file_window no_floats three_groups 1 (row_count d) = Some grid.
Proof.
  assert (in_int32 (1 + 4)) as H3 by (unfold in_int32; lia).
  assert (1 < RowGroup_num_rows three_groups 0) as H4 by reflexivity.
  split; [exact metadata_ok_three_groups|]. split; [exact data_ok_three_groups|].
  split; [exact H3|].
  split; [lia|]. split; [lia|]. split; [exact H4|].
  exact (window_from_first_group_is_exact no_floats three_groups [mk_Field "id" "int64"]
           1 4 metadata_ok_three_groups data_ok_three_groups H3
           ltac:(lia) ltac:(lia) H4).
Defined.

Lemma grid_complete n m (grid : list (list Cell)) :
  grid_shape n m grid ->
  (forall r c, (r < n)%nat -> (c < m)%nat -> exists s, grid_cell grid r c = Some (Some s)) ->
  Forall (fun row : list Cell => Z.of_nat (length row) = Z.of_nat m /\ Forall is_Some row) grid.
Proof.
  intros [Hn Hm] Hcells. apply Forall_lookup. intros r row Hrow.
  rewrite Forall_lookup in Hm. pose proof (Hm r row Hrow) as Hlen. cbn beta in Hlen.
  split; [lia|]. apply Forall_lookup. intros c cell Hcell.
  destruct (Hcells r c) as [s Hs].
  - rewrite <- Hn. eapply lookup_lt_Some, Hrow.
  - rewrite <- Hlen. eapply lookup_lt_Some, Hcell.
  - unfold grid_cell in Hs. rewrite Hrow in Hs. cbn [mbind option_bind] in Hs.
    cbn beta in Hs.
    pose proof (eq_trans (eq_sym Hcell) Hs) as Heq. injection Heq as ->. eauto.
Qed.

(** X20: the result of a window that starts in the first row group of a
    well-formed file has every cell assigned, and free_table_data on it
    releases every string, every row array, the grid and the struct
    without an invalid access. *)
Theorem window_from_first_group_is_released (snprintf_g6 : PrimFloat.float -> string)
    (f : File) (fields : list Field) (start_row num_rows : Z) :
  metadata_ok f -> data_ok f fields ->
  in_int32 (start_row + num_rows) ->
  0 <= start_row -> 0 < num_rows ->
  start_row < RowGroup_num_rows f 0 ->
  exists d grid,
    read_rows snprintf_g6 f start_row num_rows = Some d /\
    data d = Some grid /\
    Forall (Forall is_Some) grid /\
    free_table_data (Some d)
    = Some (concat (map (fun row => map CString (row_strings row) ++ [RowArray]) grid)
              ++ [GridArray; TableDataStruct]).
Proof.
  intros Hmeta Hdata Hsum Hfrom Hpos Hfirst.
  assert (in_int32 start_row) as Hstart.
  { unfold in_int32 in *. change (2 ^ 31) with 2147483648 in *. lia. }
  destruct (first_group_read snprintf_g6 f fields start_row num_rows
              Hmeta Hdata Hstart Hsum Hfrom Hpos Hfirst _ _ eq_refl eq_refl)
    as (whole & _ & Hcols & Hvalues & Hread).
  destruct (first_group_row_count f start_row num_rows
              Hmeta Hsum Hfrom Hpos Hfirst _ _ eq_refl eq_refl) as (_ & _ & Hrows & _).
  cbv zeta in Hread, Hvalues, Hrows.
  set (row_count := Z.min (start_row + num_rows) (Parquet.num_rows f) - start_row) in *.
  set (table := table_slice start_row row_count whole) in *.
  assert (table_num_columns table = Z.of_nat (length fields)) as Hncols.
  { unfold table_num_columns, table. cbn [table_slice table_columns].
    rewrite length_map, Hcols. reflexivity. }
  assert (Forall (fun row : list Cell =>
                    Z.of_nat (length row) = Z.of_nat (length fields) /\ Forall is_Some row)
            (table_to_grid snprintf_g6 row_count table)) as Hcomplete.
  { apply (grid_complete (Z.to_nat row_count)).
    - rewrite <- (Nat2Z.id (length fields)), <- Hncols. apply table_to_grid_shape.
    - intros r c Hr Hc.
      destruct (lookup_lt_is_Some_2 (table_columns table) c) as [column Hcolumn].
      { unfold table_num_columns in Hncols. lia. }
      rewrite Forall_forall in Hvalues.
      pose proof (Hvalues column (list_elem_of_lookup_2 _ _ _ Hcolumn)) as Hlen.
      destruct (lookup_lt_is_Some_2 (column_values snprintf_g6 column) r) as [v Hv];
        [lia|].
      exists (Libc.strdup_c_str v).
      apply (table_to_grid_cell snprintf_g6 row_count table r c column v Hcolumn Hv). lia. }
  eexists _, _. split; [exact Hread|]. cbn [data]. split; [reflexivity|].
  split; [eapply Forall_impl; [exact Hcomplete|]; intros row [_ Hrow]; exact Hrow|].
  apply free_table_data_complete_grid; [|exact Hcomplete].
  destruct (table_to_grid_shape snprintf_g6 row_count table) as [Hn _].
  rewrite Hn. lia.
Qed.

Lemma window_from_first_group_is_released_witness :
  metadata_ok three_groups /\ data_ok three_groups [mk_Field "id" "int64"] /\
  in_int32 (1 + 4) /\ 0 <= 1 /\ 0 < 4 /\
  1 < RowGroup_num_rows three_groups 0 /\
  exists d grid,
    read_rows no_floats three_groups 1 4 = Some d /\
    data d = Some grid /\
    Forall (Forall is_Some) grid /\
    free_table_data (Some d)
    = Some (concat (map (fun row => map CString (row_strings row) ++ [RowArray]) grid)
              ++ [GridArray; TableDataStruct]).
Proof.
  assert (in_int32 (1 + 4)) as H3 by (unfold in_int32; lia).
  assert (1 < RowGroup_num_rows three_groups 0) as H4 by reflexivity.
  split; [exact metadata_ok_three_groups|]. split; [exact data_ok_three_groups|].
  split; [exact H3|].
  split; [lia|]. split; [lia|]. split; [exact H4|].
  exact (window_from_first_group_is_released no_floats three_groups
           [mk_Field "id" "int64"] 1 4 metadata_ok_three_groups data_ok_three_groups
           H3 ltac:(lia) ltac:(lia) H4).
Defined.
